(** * P3 (Parakeet Podcast Processor): episode lifecycle and recovery

    A shallow embedding of the command-line interface [src/p3/cli.py] and of
    the schema migration [src/p3/migrate_db.py].

    - Part I   strings, Python truthiness
    - Part II  the episode store (class [P3Database], not among the sources)
    - Part III the commands [retry], [mark_processed], [errors], [digest]
    - Part IV  the commands [export] and [write] as effect traces
    - Part V   the migration over a table with a schema
    - Part VI  the vocabulary of the properties
    - Part VII lemmas and theorems
    - Part VIII further properties of the commands and of the migration *)

From Stdlib Require Import ZArith Ascii String.
From stdpp Require Import base option list gmap strings fin_maps.

Open Scope string_scope.
Open Scope Z_scope.

(* ===================================================================== *)
(** * Part I: strings and truthiness *)
(* ===================================================================== *)

Module PyStr.

(** [c.lower()] for an ASCII character: the letters A to Z are lowered,
    every other character is kept. *)
Definition lower_ascii (c : ascii) : ascii :=
  let n := nat_of_ascii c in
  if (Nat.leb 65 n && Nat.leb n 90)%bool then ascii_of_nat (n + 32)%nat else c.

(** [s.lower()] for a string of ASCII characters. [str.lower] of the Python
    library also lowers the letters outside ASCII: the commands take it as a
    parameter, and this function stands for it on ASCII strings. *)
Fixpoint lower (s : string) : string :=
  match s with
  | EmptyString => EmptyString
  | String c s' => String (lower_ascii c) (lower s')
  end.

(** [p in s]: [p] occurs in [s] as a contiguous substring. The empty
    string occurs in every string. *)
Fixpoint contains (p s : string) : bool :=
  String.prefix p s ||
  match s with
  | EmptyString => false
  | String _ s' => contains p s'
  end.

(** [s[:n]] for [n >= 0] *)
Definition take (n : nat) (s : string) : string := String.substring 0 n s.

End PyStr.

(** Truthiness of an optional integer option ([if episode_id:]): [None] and
    [0] are both false. The result is the integer when it is true. *)
Definition truthy_int (o : option Z) : option Z :=
  match o with
  | Some n => if n =? 0 then None else Some n
  | None => None
  end.

(** Truthiness of an optional string option ([if date:], [elif podcast:],
    [if reason:]): [None] and the empty string are both false. *)
Definition truthy_str (o : option string) : option string :=
  match o with
  | Some EmptyString => None
  | Some s => Some s
  | None => None
  end.

(* ===================================================================== *)
(** * Part II: the episode store *)
(* ===================================================================== *)

(** One row of the episodes table, without its key. The timestamp is kept
    as its textual rendering. *)
Record Episode := mkEpisode {
  podcast_title : string;
  title : string;
  status : string;
  error_count : Z;
  last_error : option string;
  error_timestamp : option string;
  summary : option string
}.

Definition with_status (s : string) (e : Episode) : Episode :=
  {| podcast_title := podcast_title e; title := title e; status := s;
     error_count := error_count e; last_error := last_error e;
     error_timestamp := error_timestamp e; summary := summary e |}.

Definition with_errors (n : Z) (msg ts : option string) (e : Episode) : Episode :=
  {| podcast_title := podcast_title e; title := title e; status := status e;
     error_count := n; last_error := msg;
     error_timestamp := ts; summary := summary e |}.

Definition with_summary (a : option string) (e : Episode) : Episode :=
  {| podcast_title := podcast_title e; title := title e; status := status e;
     error_count := error_count e; last_error := last_error e;
     error_timestamp := error_timestamp e; summary := a |}.

(** The four values of the status enumeration. *)
Definition statuses : list string :=
  ["downloaded"; "transcribed"; "processed"; "failed"].

Definition valid_status (s : string) : bool := bool_decide (s ∈ statuses).

(** The store: the episodes keyed by their id (the primary key), and the
    informational notes left by manual overrides. *)
Record P3Database := mkDb {
  episodes : gmap Z Episode;
  notes : list (Z * string)
}.

(** A row as a query returns it: the id with the other columns. *)
Definition row : Type := Z * Episode.

Definition with_episodes (m : gmap Z Episode) (db : P3Database) : P3Database :=
  {| episodes := m; notes := notes db |}.

Module Db.

(** Modelled from the spec: [P3Database.get_episode_by_id], absent from the
    sources; the spec's [get(id) -> Episode | not found], a point lookup. *)
Definition get_episode_by_id (id : Z) (db : P3Database) : option Episode :=
  episodes db !! id.

(** Modelled from the spec: [P3Database.get_episodes_by_status], absent
    from the sources; the spec's [list_by_status(status)]. The rows come in
    the enumeration order of the map. *)
Definition get_episodes_by_status (s : string) (db : P3Database) : list row :=
  filter (λ r : row, status r.2 = s) (map_to_list (episodes db)).

(** Modelled from the spec: [P3Database.get_error_episodes], absent from
    the sources; the spec's [list_errored()]: all episodes with
    [error_count > 0], regardless of current status. *)
Definition get_error_episodes (db : P3Database) : list row :=
  filter (λ r : row, 0 < error_count r.2) (map_to_list (episodes db)).

(** Modelled from the spec: [P3Database.reset_episode_errors], absent from
    the sources; the spec's [reset_errors(id)]: zero [error_count], null
    [last_error] and [error_timestamp]. *)
Definition reset_episode_errors (id : Z) (db : P3Database) : P3Database :=
  with_episodes (alter (with_errors 0 None None) id (episodes db)) db.

(** Modelled from the spec: [P3Database.update_episode_status], absent from
    the sources; the spec's [set_status(id, status)], a direct status
    override that validates the target status: a value outside the
    enumeration is rejected and the store is left as it was. *)
Definition update_episode_status (id : Z) (s : string) (db : P3Database)
  : P3Database :=
  if valid_status s then with_episodes (alter (with_status s) id (episodes db)) db
  else db.

(** Modelled from the spec: [P3Database.mark_episode_as_processed], absent
    from the sources; the spec's force-mark-processed: sets
    [status = 'processed'] directly and records the reason as an
    informational note, not as [last_error]. *)
Definition mark_episode_as_processed (id : Z) (reason : option string)
    (db : P3Database) : P3Database :=
  {| episodes := alter (with_status "processed") id (episodes db);
     notes := match reason with
              | Some r => (notes db ++ [(id, r)])%list
              | None => notes db
              end |}.

(** Modelled from the spec: the store's [record_success(id, new_status,
    artifact)], absent from the sources: sets the status and attaches the
    artifact; does not touch the error fields. *)
Definition record_success (id : Z) (new_status artifact : string)
    (db : P3Database) : P3Database :=
  with_episodes
    (alter (λ e, with_summary (Some artifact) (with_status new_status e)) id
       (episodes db)) db.

(** Modelled from the spec: the store's [record_failure(id, message)],
    absent from the sources: increments [error_count], sets [last_error]
    and [error_timestamp]; does not change the status. *)
Definition record_failure (id : Z) (message now : string) (db : P3Database)
  : P3Database :=
  with_episodes
    (alter (λ e, with_errors (error_count e + 1) (Some message) (Some now) e) id
       (episodes db)) db.

End Db.

(* ===================================================================== *)
(** * Part III: the recovery and batch commands of [cli.py] *)
(* ===================================================================== *)

(** What a command prints, without the markup. *)
Inductive msg :=
| MsgEpisodeNotFound (id : Z)
| MsgMarked (id : Z) (episode_title : string)
| MsgReason (reason : string)
| MsgNoErrorEpisodesFor (podcast : string)
| MsgFoundErrorEpisodesFor (n : nat) (podcast : string)
| MsgTick (episode_title : string)
| MsgMarkedCount (n : nat)
| MsgSpecifyEpisodeOrPodcast
| MsgResetErrors (id : Z)
| MsgReadyForRetry (id : Z)
| MsgNoFailedEpisodes
| MsgFoundFailed (n : nat)
| MsgResetTitle (episode_title : string)
| MsgResetCount (n : nat)
| MsgSpecifyEpisodeOrAll.

(** The state a command threads: the store and what was printed so far. *)
Definition cmd_state : Type := P3Database * list msg.

Definition say (m : msg) (st : cmd_state) : cmd_state := (st.1, (st.2 ++ [m])%list).
Definition on_db (f : P3Database → P3Database) (st : cmd_state) : cmd_state :=
  (f st.1, st.2).

(** [for x in l: body] *)
Definition for_each {A S : Type} (body : A → S → S) (l : list A) (s : S) : S :=
  foldl (λ acc x, body x acc) s l.

(** The body of [for ep in podcast_episodes] in [cli.mark_processed]. *)
Definition mark_one (reason : option string) (ep : row) (st : cmd_state)
  : cmd_state :=
  say (MsgTick (title ep.2)) (on_db (Db.mark_episode_as_processed ep.1 reason) st).

(** The body of [for ep in error_episodes] in [cli.retry]. *)
Definition retry_one (reset_errors : bool) (ep : row) (st : cmd_state)
  : cmd_state :=
  let st := if reset_errors then on_db (Db.reset_episode_errors ep.1) st else st in
  say (MsgResetTitle (title ep.2))
    (on_db (Db.update_episode_status ep.1 "downloaded") st).

(** Whether the podcast title of a row matches the name given:
    [podcast.lower() in e['podcast_title'].lower()], with [lower] for
    [str.lower] of the Python library. *)
Definition matches_podcast (lower : string → string) (podcast : string) (e : row)
  : bool :=
  PyStr.contains (lower podcast) (lower (podcast_title e.2)).

(** [cli.mark_processed]; [lower] is [str.lower] of the Python library. *)
Definition mark_processed (lower : string → string)
    (episode_id : option Z) (podcast reason : option string)
    (db : P3Database) : cmd_state :=
  match truthy_int episode_id with
  | Some id =>
      match Db.get_episode_by_id id db with
      | None => (db, [MsgEpisodeNotFound id])
      | Some episode =>
          let st := say (MsgMarked id (title episode))
                      (Db.mark_episode_as_processed id reason db, []) in
          match truthy_str reason with
          | Some r => say (MsgReason r) st
          | None => st
          end
      end
  | None =>
      match truthy_str podcast with
      | Some p =>
          let error_episodes := Db.get_error_episodes db in
          let podcast_episodes :=
            filter (λ e : row, matches_podcast lower p e = true) error_episodes in
          match podcast_episodes with
          | [] => (db, [MsgNoErrorEpisodesFor p])
          | _ =>
              let st := (db, [MsgFoundErrorEpisodesFor (length podcast_episodes) p]) in
              let st := for_each (mark_one reason) podcast_episodes st in
              say (MsgMarkedCount (length podcast_episodes)) st
          end
      | None => (db, [MsgSpecifyEpisodeOrPodcast])
      end
  end.

(** [cli.retry] *)
Definition retry (episode_id : option Z) (all reset_errors : bool)
    (db : P3Database) : cmd_state :=
  match truthy_int episode_id with
  | Some id =>
      match Db.get_episode_by_id id db with
      | None => (db, [MsgEpisodeNotFound id])
      | Some episode =>
          let st := (db, []) in
          let st := if reset_errors
                    then say (MsgResetErrors id) (on_db (Db.reset_episode_errors id) st)
                    else st in
          say (MsgReadyForRetry id) (on_db (Db.update_episode_status id "downloaded") st)
      end
  | None =>
      if all then
        let error_episodes := Db.get_error_episodes db in
        match error_episodes with
        | [] => (db, [MsgNoFailedEpisodes])
        | _ =>
            let st := (db, [MsgFoundFailed (length error_episodes)]) in
            let st := for_each (retry_one reset_errors) error_episodes st in
            say (MsgResetCount (length error_episodes)) st
        end
      else (db, [MsgSpecifyEpisodeOrAll])
  end.

(** One line of the table that [errors] prints: the id, the podcast and
    episode titles cut to 30 and 40 characters, the status, the error count
    and, with [--show-all], the last error and its timestamp. *)
Record error_line := mkErrorLine {
  line_id : Z;
  line_podcast : string;
  line_episode : string;
  line_status : string;
  line_errors : Z;
  line_details : option (string * string)
}.

Inductive errors_output :=
| NoErrorsFound
| ErrorsTable (total : nat) (lines : list error_line) (hint : bool).

(** [x or "N/A"] for an optional string *)
Definition or_na (o : option string) : string :=
  match truthy_str o with Some s => s | None => "N/A" end.

(** [cli.errors]; the command only reads the store. *)
Definition errors (show_all : bool) (db : P3Database) : errors_output :=
  let error_episodes := Db.get_error_episodes db in
  match error_episodes with
  | [] => NoErrorsFound
  | _ =>
      let line (ep : row) :=
        {| line_id := ep.1;
           line_podcast := PyStr.take 30 (podcast_title ep.2);
           line_episode := PyStr.take 40 (title ep.2);
           line_status := status ep.2;
           line_errors := error_count ep.2;
           line_details :=
             if show_all then
               let error_msg := or_na (last_error ep.2) in
               let error_msg := if Nat.ltb 50 (String.length error_msg)
                                then PyStr.take 47 error_msg +:+ "..."
                                else error_msg in
               Some (error_msg,
                     PyStr.take 19 (match error_timestamp ep.2 with
                                    | Some t => t
                                    | None => "N/A"
                                    end))
             else None |} in
      ErrorsTable (length error_episodes) (line <$> error_episodes) (negb show_all)
  end.

(** ** Configuration *)

Record settings := mkSettings {
  llm_provider : option string;
  llm_model : option string;
  ollama_base_url : option string;
  export_format : option (list string)
}.

(** What [load_config] yields: the settings of the file, or one of the two
    ways it ends the process with exit status 1. *)
Inductive loaded :=
| Loaded (s : settings)
| ConfigNotFound
| ConfigError (e : string).

(** [a or b] on strings *)
Definition str_or (a : option string) (b : string) : string :=
  match truthy_str a with Some s => s | None => b end.

(** ** The summarize stage *)

(** The result of one call of a stage executor: an artifact, or a reason
    together with the time of the failure. *)
Inductive outcome :=
| Success (artifact : string)
| Failure (reason now : string).

(** [TranscriptCleaner(db, llm_provider, llm_model, ollama_base_url)] *)
Record TranscriptCleaner := mkCleaner {
  cleaner_provider : string;
  cleaner_model : string;
  cleaner_base_url : string
}.

(** What [digest] prints. *)
Inductive digest_msg :=
| DConfigNotFound
| DConfigError (e : string)
| DProcessingEpisode (id : Z)
| DEpisodeProcessed (id : Z)
| DEpisodeFailed (id : Z)
| DProcessingAll
| DSkippingErrored
| DNoEpisodes
| DSkipping (title40 : string)
| DProcessed (n : nat)
| DFailed (n : nat)
| DHintShowAll
| DHintErrorsOrRetry.

(** What [digest] does, in order: what it prints and its calls of the
    cleaner. *)
Inductive event :=
| Print (m : digest_msg)
| Summarize (id : Z) (skip_errors : bool).

Global Instance digest_msg_eq_dec : EqDecision digest_msg.
Proof. solve_decision. Defined.

Global Instance event_eq_dec : EqDecision event.
Proof. solve_decision. Defined.

(** The variables of the batch loop of [digest]. *)
Record batch := mkBatch {
  batch_db : P3Database;
  processed : nat;
  failed : nat;
  trace : list event
}.

(** The cleaner that [digest] builds: the options of the command line come
    before the settings of the file, and these before the defaults. *)
Definition cleaner_of (settings : settings) (provider model : option string)
  : TranscriptCleaner :=
  {| cleaner_provider := str_or provider (default "openai" (llm_provider settings));
     cleaner_model := str_or model (default "gpt-3.5-turbo" (llm_model settings));
     cleaner_base_url := default "http://localhost:11434" (ollama_base_url settings) |}.

(** The lines that [digest] prints before its loop, and the variables of
    the loop at its start. *)
Definition batch_header (skip_errors : bool) : list event :=
  (Print DProcessingAll :: if skip_errors then [Print DSkippingErrored] else [])%list.

Definition batch_start (skip_errors : bool) (db : P3Database) : batch :=
  {| batch_db := db; processed := 0; failed := 0; trace := batch_header skip_errors |}.

Section Digest.

(** The language-model call behind the summarize stage: it may depend on
    the cleaner's settings, on the episode and on the store it reads. *)
Variable llm : TranscriptCleaner → P3Database → Z → outcome.

(** Modelled from the spec: [TranscriptCleaner.generate_summary], absent
    from the sources; the spec's processing of a single episode through a
    stage whose precondition status is 'transcribed': the eligibility is
    re-checked (with [skip_errors], an episode with [error_count > 0] is
    excluded), the executor is invoked, a success is recorded with
    [record_success(id, 'processed', artifact)] and a failure with
    [record_failure(id, reason)], and no failure is raised to the caller.
    The boolean is the truth value of the result. *)
Definition generate_summary (cleaner : TranscriptCleaner) (episode_id : Z)
    (skip_errors : bool) (db : P3Database) : P3Database * bool :=
  match Db.get_episode_by_id episode_id db with
  | None => (db, false)
  | Some e =>
      if negb (bool_decide (status e = "transcribed")) then (db, false)
      else if skip_errors && bool_decide (0 < error_count e) then (db, false)
      else match llm cleaner db episode_id with
           | Success artifact =>
               (Db.record_success episode_id "processed" artifact db, true)
           | Failure reason now =>
               (Db.record_failure episode_id reason now db, false)
           end
  end.

(** The body of [for episode in track(episodes, ...)] in [cli.digest]. *)
Definition digest_step (cleaner : TranscriptCleaner) (skip_errors : bool)
    (max_retries : Z) (episode : row) (b : batch) : batch :=
  if bool_decide (max_retries ≤ error_count episode.2) then
    {| batch_db := batch_db b; processed := processed b; failed := failed b;
       trace := (trace b ++ [Print (DSkipping (PyStr.take 40 (title episode.2)))])%list |}
  else
    let '(db', result) := generate_summary cleaner episode.1 skip_errors (batch_db b) in
    {| batch_db := db';
       processed := if result then S (processed b) else processed b;
       failed := if result then failed b else S (failed b);
       trace := (trace b ++ [Summarize episode.1 skip_errors])%list |}.

(** The loop of [cli.digest] over the transcribed episodes. *)
Definition digest_loop (cleaner : TranscriptCleaner) (skip_errors : bool)
    (max_retries : Z) (episodes : list row) (b : batch) : batch :=
  for_each (digest_step cleaner skip_errors max_retries) episodes b.

(** [cli.digest] *)
Definition digest (config : loaded) (provider model : option string)
    (episode_id : option Z) (skip_errors : bool) (max_retries : Z)
    (db : P3Database) : P3Database * list event :=
  match config with
  | ConfigNotFound => (db, [Print DConfigNotFound])
  | ConfigError e => (db, [Print (DConfigError e)])
  | Loaded settings =>
      let cleaner := cleaner_of settings provider model in
      match truthy_int episode_id with
      | Some id =>
          let '(db', result) := generate_summary cleaner id skip_errors db in
          (db', (Print (DProcessingEpisode id) :: Summarize id skip_errors ::
                 if result then [Print (DEpisodeProcessed id)]
                 else [Print (DEpisodeFailed id); Print DHintShowAll])%list)
      | None =>
          let episodes := Db.get_episodes_by_status "transcribed" db in
          match episodes with
          | [] => (db, (batch_header skip_errors ++ [Print DNoEpisodes])%list)
          | _ =>
              let b := digest_loop cleaner skip_errors max_retries episodes
                         (batch_start skip_errors db) in
              (batch_db b,
               (trace b ++ Print (DProcessed (processed b)) ::
                  if Nat.ltb 0 (failed b)
                  then [Print (DFailed (failed b)); Print DHintErrorsOrRetry]
                  else [])%list)
          end
      end
  end.

End Digest.

(* ===================================================================== *)
(** * Part IV: [export] and [write] as effect traces *)
(* ===================================================================== *)

Module PyDate.

Record date := mkDate { year : Z; month : Z; day : Z }.

Definition is_digit (c : ascii) : bool :=
  let n := nat_of_ascii c in (Nat.leb 48 n && Nat.leb n 57)%bool.

Definition digit (c : ascii) : Z := Z.of_nat (nat_of_ascii c) - 48.

Definition in_range (lo hi : ascii) (c : ascii) : bool :=
  (Nat.leb (nat_of_ascii lo) (nat_of_ascii c)
   && Nat.leb (nat_of_ascii c) (nat_of_ascii hi))%bool.

(** The directive [%Y]: exactly four digits. *)
Definition parse_year (s : string) : option (Z * string) :=
  match s with
  | String a (String b (String c (String d rest))) =>
      if (is_digit a && is_digit b && is_digit c && is_digit d)%bool
      then Some (1000 * digit a + 100 * digit b + 10 * digit c + digit d, rest)
      else None
  | _ => None
  end.

(** The literal [-] of the format. *)
Definition parse_dash (s : string) : option string :=
  match s with
  | String "-" rest => Some rest
  | _ => None
  end.

(** The directive [%m]: the alternatives [1[0-2]], [0[1-9]], [[1-9]], tried
    in this order. *)
Definition parse_month (s : string) : option (Z * string) :=
  match s with
  | String a rest =>
      match rest with
      | String b rest' =>
          if (Ascii.eqb a "1" && in_range "0" "2" b)%bool then Some (10 + digit b, rest')
          else if (Ascii.eqb a "0" && in_range "1" "9" b)%bool then Some (digit b, rest')
          else if in_range "1" "9" a then Some (digit a, rest)
          else None
      | EmptyString => if in_range "1" "9" a then Some (digit a, rest) else None
      end
  | EmptyString => None
  end.

(** The directive [%d]: the alternatives [3[0-1]], [[1-2]\d], [0[1-9]],
    [[1-9]] and a space followed by [[1-9]], tried in this order. *)
Definition parse_day (s : string) : option (Z * string) :=
  match s with
  | String a rest =>
      match rest with
      | String b rest' =>
          if (Ascii.eqb a "3" && in_range "0" "1" b)%bool then Some (30 + digit b, rest')
          else if (in_range "1" "2" a && is_digit b)%bool then Some (10 * digit a + digit b, rest')
          else if (Ascii.eqb a "0" && in_range "1" "9" b)%bool then Some (digit b, rest')
          else if in_range "1" "9" a then Some (digit a, rest)
          else if (Ascii.eqb a " " && in_range "1" "9" b)%bool then Some (digit b, rest')
          else None
      | EmptyString => if in_range "1" "9" a then Some (digit a, rest) else None
      end
  | EmptyString => None
  end.

Definition is_leap (y : Z) : bool :=
  ((y mod 4 =? 0) && negb (y mod 100 =? 0) || (y mod 400 =? 0))%bool.

Definition days_in_month (y m : Z) : Z :=
  if m =? 2 then (if is_leap y then 29 else 28)
  else if (m =? 4) || (m =? 6) || (m =? 9) || (m =? 11) then 30
  else 31.

(** The calendar check of the [datetime] constructor. *)
Definition valid_date (y m d : Z) : bool :=
  ((1 <=? y) && (y <=? 9999) && (1 <=? m) && (m <=? 12)
   && (1 <=? d) && (d <=? days_in_month y m))%bool.

(** [datetime.strptime(s, '%Y-%m-%d')] for a string of ASCII characters;
    [None] stands for [ValueError]: the string does not match the format,
    some of it is left over after the match, or the three numbers are not a
    date. The library also reads the decimal digits outside ASCII: the
    commands take [strptime] as a parameter, and this function stands for it
    on ASCII strings. *)
Definition strptime_ymd (s : string) : option date :=
  '(y, s) ← parse_year s;
  s ← parse_dash s;
  '(m, s) ← parse_month s;
  s ← parse_dash s;
  '(d, s) ← parse_day s;
  match s with
  | EmptyString => if valid_date y m d then Some (mkDate y m d) else None
  | _ => None
  end.

(** The form the option's help text names, read strictly: four digits, a
    dash, two digits, a dash, two digits. *)
Definition yyyy_mm_dd_form (s : string) : bool :=
  match s with
  | String y1 (String y2 (String y3 (String y4 (String "-"
      (String m1 (String m2 (String "-" (String d1 (String d2 EmptyString))))))))) =>
      (is_digit y1 && is_digit y2 && is_digit y3 && is_digit y4
       && is_digit m1 && is_digit m2 && is_digit d1 && is_digit d2)%bool
  | _ => false
  end.

End PyDate.

Import PyDate.

(** The file a digest is written to: [output] when given, else
    [digest_<date>.<ext>]. *)
Inductive filename :=
| Named (path : string)
| DigestOf (d : date) (ext : string).

Inductive io_msg :=
| IoConfigNotFound
| IoConfigError (e : string)
| IoInvalidDate
| IoNoSummaries (d : date)
| IoRunDigestFirst
| IoExporting (n : nat) (d : date)
| IoUnsupportedFormat (fmt : string)
| IoExported (fmt : string) (f : filename)
| IoGenerating (topic : string) (n : nat) (d : date)
| IoBlogResults
| IoSavedTo
| IoSocialPosts
| IoPreview.

(** The effects of [export] and [write], in order: what is printed, the one
    query of the store, the files written and the calls of the writer. *)
Inductive io_event :=
| Tell (m : io_msg)
| QuerySummaries (d : date)
| WriteFile (f : filename) (content : string)
| GenerateBlogPost (topic : string) (primary_summary : string)
| SaveBlogPost
| GenerateSocialPosts.

(** An event that reaches the store, a file or a collaborator. *)
Definition is_effect (e : io_event) : bool :=
  match e with
  | Tell _ => false
  | _ => true
  end.

(** [cli.main], the callback of the command group: it runs before every
    command and opens the store ([ctx.obj['db'] = P3Database(db)]). An
    invocation is the opening of the store followed by what the command
    does. *)
Inductive invocation_event :=
| OpenStore (db : string)
| InCommand (ev : io_event).

Definition main (db : string) (command : list io_event) : list invocation_event :=
  OpenStore db :: (InCommand <$> command).

Section ExportWrite.

(** [datetime.strptime(s, '%Y-%m-%d')] of the Python library; [None] stands
    for [ValueError]. *)
Variable strptime : string → option date.
(** [datetime.now()] *)
Variable now : date.
(** The store's answer to [db.get_summaries_by_date]. *)
Variable get_summaries_by_date : date → list string.
(** [DigestExporter.export_markdown] and [DigestExporter.export_json] *)
Variable export_markdown export_json : list string → date → string.

(** The block under [# Parse date], the same in both commands: the target
    date, or nothing when the command prints the error and returns. *)
Definition parse_date (date : option string) : option PyDate.date :=
  match truthy_str date with
  | Some d => strptime d
  | None => Some now
  end.

(** [cli.export] *)
Definition export (config : loaded) (date : option string)
    (format : list string) (output : option string) : list io_event :=
  match config with
  | ConfigNotFound => [Tell IoConfigNotFound]
  | ConfigError e => [Tell (IoConfigError e)]
  | Loaded settings =>
      match parse_date date with
      | None => [Tell IoInvalidDate]
      | Some target_date =>
          let formats := match format with
                         | [] => default ["markdown"] (export_format settings)
                         | _ => format
                         end in
          let summaries := get_summaries_by_date target_date in
          (QuerySummaries target_date ::
           match summaries with
           | [] => [Tell (IoNoSummaries target_date)]
           | _ =>
               Tell (IoExporting (length summaries) target_date) ::
               for_each
                 (λ fmt (out : list io_event),
                    if bool_decide (fmt = "markdown") then
                      let f := match truthy_str output with
                               | Some o => Named o
                               | None => DigestOf target_date "md"
                               end in
                      out ++ [WriteFile f (export_markdown summaries target_date);
                              Tell (IoExported fmt f)]
                    else if bool_decide (fmt = "json") then
                      let f := match truthy_str output with
                               | Some o => Named o
                               | None => DigestOf target_date "json"
                               end in
                      out ++ [WriteFile f (export_json summaries target_date);
                              Tell (IoExported fmt f)]
                    else out ++ [Tell (IoUnsupportedFormat fmt)])
                 formats []
           end)%list
      end
  end.

(** [cli.write]; the grade to reach only parameterises the writer. *)
Definition write (config : loaded) (topic : string) (date : option string)
  : list io_event :=
  match config with
  | ConfigNotFound => [Tell IoConfigNotFound]
  | ConfigError e => [Tell (IoConfigError e)]
  | Loaded settings =>
      match parse_date date with
      | None => [Tell IoInvalidDate]
      | Some target_date =>
          let summaries := get_summaries_by_date target_date in
          QuerySummaries target_date ::
          match summaries with
          | [] => [Tell (IoNoSummaries target_date); Tell IoRunDigestFirst]
          | primary_summary :: _ =>
              [Tell (IoGenerating topic (length summaries) target_date);
               GenerateBlogPost topic primary_summary;
               Tell IoBlogResults;
               SaveBlogPost;
               Tell IoSavedTo;
               GenerateSocialPosts;
               Tell IoSocialPosts;
               Tell IoPreview]
          end
      end
  end.

End ExportWrite.

(* ===================================================================== *)
(** * Part V: the schema migration of [migrate_db.py] *)
(* ===================================================================== *)

Module Migrate.

(** A cell of a table. *)
Inductive value :=
| VNull
| VInt (n : Z)
| VText (s : string).

(** The column types that the script names: [INTEGER], [TEXT] (the
    engine's [VARCHAR]) and [TIMESTAMP]. *)
Inductive sqltype :=
| TInteger
| TVarchar
| TTimestamp.

Record column := mkColumn {
  column_name : string;
  column_type : sqltype
}.

(** A table: the name it was created under, its columns in order, and its
    rows, each a map from the name of a column to the cell. *)
Record table := mkTable {
  table_name : string;
  columns : list column;
  rows : list (gmap string value)
}.

(** The database file: its tables. The engine looks identifiers up without
    regard to case, so a table is kept under its name in lower case; the
    table itself keeps the spelling it was created under. *)
Abbreviation database := (gmap string table).

(** The statements the script may execute after its first query. *)
Inductive stmt :=
| AddColumn (name : string) (type : sqltype) (dflt : value)
| NormalizeStatus.

Inductive migrate_msg :=
| Migrating
| Added (name : string)
| Completed
| MigrationError.

Definition error_columns : list string :=
  ["error_count"; "last_error"; "error_timestamp"].

(** Two spellings of one identifier: equal up to the case of the letters
    A to Z. *)
Definition same_identifier (a b : string) : bool :=
  String.eqb (PyStr.lower a) (PyStr.lower b).

(** The column that an identifier names in a table, if there is one. *)
Definition find_column (name : string) (t : table) : option column :=
  List.find (λ c, same_identifier (column_name c) name) (columns t).

Definition has_column (name : string) (t : table) : bool :=
  existsb (λ c, same_identifier (column_name c) name) (columns t).

(** [SELECT column_name FROM information_schema.columns
     WHERE table_name = 'episodes' AND column_name IN (...)]: the two
    conditions compare strings, so they hold of the exact spellings only;
    no row when there is no table spelled [episodes]. *)
Definition existing_error_columns (db : database) : list string :=
  match db !! "episodes" with
  | Some t =>
      if bool_decide (table_name t = "episodes")
      then filter (λ c, c ∈ error_columns) (column_name <$> columns t)
      else []
  | None => []
  end.

(** [UPDATE episodes SET status = 'downloaded' WHERE status NOT IN (...)]
    on one row, [c] being the spelling of the status column. The condition
    is true only of a text outside the four values: on a NULL it is unknown
    and the row is left as it is. *)
Definition normalize_row (c : string) (r : gmap string value) : gmap string value :=
  match r !! c with
  | Some (VText s) =>
      if valid_status s then r else <[c := VText "downloaded"]> r
  | _ => r
  end.

(** [ALTER TABLE episodes ADD COLUMN name type DEFAULT dflt] on the table:
    the column comes last, and every row gets the default in it. *)
Definition add_column (name : string) (type : sqltype) (dflt : value) (t : table)
  : table :=
  {| table_name := table_name t;
     columns := (columns t ++ [mkColumn name type])%list;
     rows := (λ r, <[name := dflt]> r) <$> rows t |}.

(** The status update on the table. *)
Definition normalize_table (c : string) (t : table) : table :=
  {| table_name := table_name t;
     columns := columns t;
     rows := normalize_row c <$> rows t |}.

Section Engine.

(** On a status column that is not of a text type the update cannot change
    a row: comparing the column with the four texts raises a conversion
    error, or the engine never gets to compare and nothing happens. Which
    of the two depends on the rows and on the version of the engine;
    [conversion_error] says whether the error is raised on a table. *)
Variable conversion_error : table → bool.

(** One statement on the table [episodes]; [None] stands for the exception
    the engine raises: a column of that name, under any spelling, is there
    already; there is no status column; or the conversion error. *)
Definition execute_on (q : stmt) (t : table) : option table :=
  match q with
  | AddColumn name type dflt =>
      if has_column name t then None else Some (add_column name type dflt t)
  | NormalizeStatus =>
      match find_column "status" t with
      | Some c =>
          match column_type c with
          | TVarchar => Some (normalize_table (column_name c) t)
          | _ => if conversion_error t then None else Some t
          end
      | None => None
      end
  end.

(** One statement on the database; [None] also when there is no table
    [episodes]. *)
Definition execute (q : stmt) (db : database) : option database :=
  match db !! "episodes" with
  | None => None
  | Some t =>
      match execute_on q t with
      | Some t' => Some (<["episodes" := t']> db)
      | None => None
      end
  end.

(** The statements of the [try] block, given the columns found: each
    column is added only when it was not found; the status update comes
    last. With each statement, what is printed after it. *)
Definition script (existing_columns : list string) : list (stmt * list migrate_msg) :=
  ((if bool_decide ("error_count" ∈ existing_columns) then []
    else [(AddColumn "error_count" TInteger (VInt 0), [Added "error_count"])]) ++
   (if bool_decide ("last_error" ∈ existing_columns) then []
    else [(AddColumn "last_error" TVarchar VNull, [Added "last_error"])]) ++
   (if bool_decide ("error_timestamp" ∈ existing_columns) then []
    else [(AddColumn "error_timestamp" TTimestamp VNull, [Added "error_timestamp"])]) ++
   [(NormalizeStatus, [Completed])])%list.

(** The [try] block: the statements run in order, each one committed as it
    is executed; the first exception ends the run, prints the error and
    makes the function return [False]. *)
Fixpoint run (qs : list (stmt * list migrate_msg)) (db : database)
    (out : list migrate_msg) : database * list migrate_msg * bool :=
  match qs with
  | [] => (db, out, true)
  | (q, said) :: qs' =>
      match execute q db with
      | Some db' => run qs' db' (out ++ said)%list
      | None => (db, (out ++ [MigrationError])%list, false)
      end
  end.

(** [migrate_database]: the database after the call, what was printed, and
    the value returned. *)
Definition migrate_database (db : database)
  : database * list migrate_msg * bool :=
  run (script (existing_error_columns db)) db [Migrating].

End Engine.

(** The rows of the episodes table; none when there is no such table. *)
Definition episode_rows (db : database) : list (gmap string value) :=
  match db !! "episodes" with
  | Some t => rows t
  | None => []
  end.

(** The columns of the episodes table. *)
Definition episode_columns (db : database) : list column :=
  match db !! "episodes" with
  | Some t => columns t
  | None => []
  end.


(** The three columns as the script adds them: name, type and default. *)
Definition column_specs : list (string * sqltype * value) :=
  [("error_count", TInteger, VInt 0);
   ("last_error", TVarchar, VNull);
   ("error_timestamp", TTimestamp, VNull)].

(** The guarded [ALTER TABLE] statements on the table, one column after the
    other: the table they leave, the columns added, and whether all of them
    went through. *)
Fixpoint adds (found : list string) (specs : list (string * sqltype * value))
    (t : table) : table * list (string * sqltype * value) * bool :=
  match specs with
  | [] => (t, [], true)
  | spec :: rest =>
      if bool_decide (spec.1.1 ∈ found) then adds found rest t
      else if has_column spec.1.1 t then (t, [], false)
      else let r := adds found rest (add_column spec.1.1 spec.1.2 spec.2 t) in
           (r.1.1, spec :: r.1.2, r.2)
  end.

(** The [try] block on the table [episodes] alone. *)
Fixpoint run_on (conversion_error : table → bool)
    (qs : list (stmt * list migrate_msg)) (t : table)
    (out : list migrate_msg) : table * list migrate_msg * bool :=
  match qs with
  | [] => (t, out, true)
  | (q, said) :: qs' =>
      match execute_on conversion_error q t with
      | Some t' => run_on conversion_error qs' t' (out ++ said)%list
      | None => (t, (out ++ [MigrationError])%list, false)
      end
  end.

(** The names of a list of columns to add are that many identifiers. *)
Definition apart (specs : list (string * sqltype * value)) : Prop :=
  ∀ i j s s', specs !! i = Some s → specs !! j = Some s' → i ≠ j →
              same_identifier s.1.1 s'.1.1 = false.

(** A row after the columns [added] were added. *)
Definition row_after (added : list (string * sqltype * value))
    (r : gmap string value) : gmap string value :=
  foldl (λ r spec, <[spec.1.1 := spec.2]> r) r added.

(** The error columns that a table spelled [episodes] shows to the first
    query. *)
Definition found_in (t : table) : list string :=
  if bool_decide (table_name t = "episodes")
  then filter (λ c, c ∈ error_columns) (column_name <$> columns t)
  else [].

(** The run on the table [episodes] alone. *)
Definition migrate_table (conversion_error : table → bool) (t : table)
  : table * list migrate_msg * bool :=
  let r := adds (found_in t) column_specs t in
  let out := ([Migrating] ++ ((λ spec, Added spec.1.1) <$> r.1.2))%list in
  if r.2 then
    match execute_on conversion_error NormalizeStatus r.1.1 with
    | Some t' => (t', (out ++ [Completed])%list, true)
    | None => (r.1.1, (out ++ [MigrationError])%list, false)
    end
  else (r.1.1, (out ++ [MigrationError])%list, false).

(** No error column is in the table under another spelling than the
    script's. *)
Definition plain_error_columns (t : table) : Prop :=
  ∀ c, c ∈ error_columns → has_column c t = true → c ∈ column_name <$> columns t.

(** The value that the rows get in a column that the script adds:
    [DEFAULT 0] for [error_count], NULL for the two columns added without a
    default. *)
Definition column_default (c : string) : value :=
  if bool_decide (c = "error_count") then VInt 0 else VNull.

(** An engine that raises the conversion error whenever the table has a
    row. *)
Definition raise_on_rows (t : table) : bool :=
  match rows t with [] => false | _ => true end.

(** A table of episodes from before the error tracking, with a status
    outside the enumeration in its second row. *)
Definition old_table : table :=
  {| table_name := "episodes";
     columns := [mkColumn "id" TInteger; mkColumn "title" TVarchar;
                 mkColumn "status" TVarchar];
     rows := [ {[ "id" := VInt 1; "title" := VText "Pilot"; "status" := VText "transcribed" ]};
               {[ "id" := VInt 2; "title" := VText "Static"; "status" := VText "transcribing" ]} ] |}.

Definition old_database : database := {[ "episodes" := old_table ]}.

(** A database with a second table beside the old table of episodes. *)
Definition old_database_with_feeds : database :=
  <["feeds" := {| table_name := "feeds";
                  columns := [mkColumn "url" TVarchar];
                  rows := [ {[ "url" := VText "https://example.org/rss" ]} ] |}]>
    old_database.





End Migrate.

(* ===================================================================== *)
(** * Part VI: the vocabulary of the properties *)
(* ===================================================================== *)

(** An episode that the error listing shows. *)
Definition errored (e : Episode) : bool := bool_decide (0 < error_count e).

(** An episode after a retry: rewound to the start of the pipeline, its
    error fields cleared when the reset was asked for. *)
Definition rewound (reset_errors : bool) (e : Episode) : Episode :=
  with_status "downloaded" (if reset_errors then with_errors 0 None None e else e).

(** The status of an episode in a store, if the episode is there. *)
Definition status_in (db : P3Database) (id : Z) : option string :=
  status <$> episodes db !! id.

(** What the batch loop of [digest] does with one row: it prints that the
    row is skipped, or it calls the cleaner for it. *)
Definition batch_event (skip_errors : bool) (max_retries : Z) (r : row) : event :=
  if bool_decide (max_retries ≤ error_count r.2)
  then Print (DSkipping (PyStr.take 40 (title r.2)))
  else Summarize r.1 skip_errors.

Definition is_print (ev : event) : bool :=
  match ev with Print _ => true | Summarize _ _ => false end.

(** The ids in the table that [errors] prints. *)
Definition listed_ids (out : errors_output) : list Z :=
  match out with
  | NoErrorsFound => []
  | ErrorsTable _ lines _ => line_id <$> lines
  end.

(** The batch that [digest] iterates over. *)
Definition digest_batch (db : P3Database) : list row :=
  Db.get_episodes_by_status "transcribed" db.

(** The rows of a batch that a store shows as processed, and the rows under
    the retry ceiling that it shows as still transcribed. *)
Definition succeeded_in (db' : P3Database) (l : list row) : list row :=
  filter (λ r : row, status_in db' r.1 = Some "processed") l.

Definition failed_in (max_retries : Z) (db' : P3Database) (l : list row) : list row :=
  filter (λ r : row, error_count r.2 < max_retries
                     ∧ status_in db' r.1 = Some "transcribed") l.

(** The status-enum invariant of a store: every episode has one of the
    four statuses. *)
Definition store_ok (db : P3Database) : Prop :=
  ∀ id e, episodes db !! id = Some e → valid_status (status e) = true.

(** ** A small store to run the commands on *)

Definition clean_transcribed : Episode :=
  mkEpisode "Example Show" "Pilot" "transcribed" 0 None None None.

Definition failing_transcribed : Episode :=
  mkEpisode "Night Radio" "Static" "transcribed" 3 (Some "timeout")
    (Some "2024-05-01 10:00:00.000000") None.

Definition done_clean : Episode :=
  mkEpisode "Example Show" "Finale" "processed" 0 None None (Some "a summary").

Definition failing_download : Episode :=
  mkEpisode "Night Radio" "Noise" "downloaded" 1 (Some "no audio")
    (Some "2024-05-02 11:30:00.000000") None.

Definition sample_db : P3Database :=
  {| episodes := <[1 := clean_transcribed]> (<[2 := failing_transcribed]>
                   (<[3 := done_clean]> (<[4 := failing_download]> ∅)));
     notes := [] |}.

Definition sample_settings : settings := mkSettings None None None None.

(** A store whose only episode has the id 0. *)
Definition failing_at_zero : P3Database :=
  {| episodes := {[ 0 := failing_transcribed ]}; notes := [] |}.

Definition done_at_zero : P3Database :=
  {| episodes := {[ 0 := done_clean ]}; notes := [] |}.

(** A language model that fails on episode 1 and succeeds elsewhere. *)
Definition sample_llm (c : TranscriptCleaner) (db : P3Database) (id : Z) : outcome :=
  if id =? 1 then Failure "rate limited" "2024-06-01 09:00:00.000000"
  else Success "a summary".

(** A world to run [export] and [write] in: the first of June 2024, a
    store with one summary for every date, and two renderers. *)
Definition sample_now : date := mkDate 2024 6 1.
Definition sample_summaries (d : date) : list string := ["summary of the pilot"].
Definition sample_markdown (l : list string) (d : date) : string := "# Digest".
Definition sample_json (l : list string) (d : date) : string := "{}".

(** ** More vocabulary *)

(** The lines of the table that [errors] prints. *)
Definition listed_lines (out : errors_output) : list error_line :=
  match out with
  | NoErrorsFound => []
  | ErrorsTable _ lines _ => lines
  end.

(** The formats that [export] goes through: those of the command line, else
    those of the settings, else markdown. *)
Definition export_formats (settings : settings) (format : list string) : list string :=
  match format with
  | [] => default ["markdown"] (export_format settings)
  | _ => format
  end.

(** The files written in a trace, in order, with their contents. *)
Definition written (tr : list io_event) : list (filename * string) :=
  omap (λ ev, match ev with WriteFile f c => Some (f, c) | _ => None end) tr.

(** The queries of the store in a trace. *)
Definition queries (tr : list io_event) : list date :=
  omap (λ ev, match ev with QuerySummaries d => Some d | _ => None end) tr.

(** The file that [export] writes a format to. *)
Definition export_file (output : option string) (d : date) (ext : string) : filename :=
  match truthy_str output with
  | Some o => Named o
  | None => DigestOf d ext
  end.

(** The body of [for fmt in formats] in [cli.export]. *)
Definition export_step (export_markdown export_json : list string → date → string)
    (output : option string) (summaries : list string) (target_date : date)
    (fmt : string) (out : list io_event) : list io_event :=
  (if bool_decide (fmt = "markdown") then
     let f := match truthy_str output with
              | Some o => Named o
              | None => DigestOf target_date "md"
              end in
     out ++ [WriteFile f (export_markdown summaries target_date);
             Tell (IoExported fmt f)]
   else if bool_decide (fmt = "json") then
     let f := match truthy_str output with
              | Some o => Named o
              | None => DigestOf target_date "json"
              end in
     out ++ [WriteFile f (export_json summaries target_date);
             Tell (IoExported fmt f)]
   else out ++ [Tell (IoUnsupportedFormat fmt)])%list.

(** What [export] writes for one format: nothing for a format other than
    markdown and json. *)
Definition export_one (export_markdown export_json : list string → date → string)
    (output : option string) (summaries : list string) (d : date) (fmt : string)
  : option (filename * string) :=
  if bool_decide (fmt = "markdown")
  then Some (export_file output d "md", export_markdown summaries d)
  else if bool_decide (fmt = "json")
  then Some (export_file output d "json", export_json summaries d)
  else None.

(** [target_date.strftime('%Y-%m-%d')] for a year of four digits: the year
    in four digits, the month and the day in two. *)
Definition digit_char (n : Z) : ascii := ascii_of_nat (48 + Z.to_nat n).

Definition two_digits (n : Z) : string :=
  String (digit_char (n / 10)) (String (digit_char (n mod 10)) "").

Definition four_digits (n : Z) : string :=
  String (digit_char (n / 1000))
    (String (digit_char (n / 100 mod 10))
       (String (digit_char (n / 10 mod 10))
          (String (digit_char (n mod 10)) ""))).

Definition strftime_ymd (d : date) : string :=
  four_digits (year d) +:+ "-" +:+ two_digits (month d) +:+ "-" +:+ two_digits (day d).

(** ** The command [status] *)

Module PyCase.

Definition is_lower (c : ascii) : bool :=
  let n := nat_of_ascii c in (Nat.leb 97 n && Nat.leb n 122)%bool.

Definition is_upper (c : ascii) : bool :=
  let n := nat_of_ascii c in (Nat.leb 65 n && Nat.leb n 90)%bool.

(** [c.upper()] on the ASCII letters; other characters are kept. *)
Definition upper_ascii (c : ascii) : ascii :=
  if is_lower c then ascii_of_nat (nat_of_ascii c - 32)%nat else c.

(** The loop of [s.title()]: a character that follows a letter is put in
    lower case, any other in upper case. *)
Fixpoint title_from (previous_is_cased : bool) (s : string) : string :=
  match s with
  | EmptyString => EmptyString
  | String c s' =>
      String (if previous_is_cased then PyStr.lower_ascii c else upper_ascii c)
        (title_from (is_lower c || is_upper c) s')
  end.

(** [s.title()] *)
Definition title (s : string) : string := title_from false s.

End PyCase.

Inductive style := Red | Green.

(** A row of the status table: [table.add_row(status.title(), str(count),
    style=style)]. *)
Record status_row := mkStatusRow {
  row_status : string;
  row_count : nat;
  row_style : style
}.

Inductive status_msg :=
| StatusTable (table : list status_row)
| StatusErrorsWarning (error_count : nat)
| StatusHintErrors.

(** [cli.status]; the command only reads the store. [counts] is the
    dictionary of the source as the list of its items, in the order in which
    the four keys are inserted. *)
Definition status_command (db : P3Database) : list status_msg :=
  let counts :=
    (λ status, (status, length (Db.get_episodes_by_status status db)))
      <$> ["downloaded"; "transcribed"; "processed"; "failed"] in
  let error_count := length (Db.get_error_episodes db) in
  let table :=
    (λ item : string * nat,
       {| row_status := PyCase.title item.1;
          row_count := item.2;
          row_style := if bool_decide (item.1 = "failed") then Red else Green |})
      <$> counts in
  StatusTable table ::
  (if Nat.ltb 0 error_count
   then [StatusErrorsWarning error_count; StatusHintErrors]
   else []).

(** The counts of the table that [status] prints, and what it prints after
    the table. *)
Definition status_counts (out : list status_msg) : list nat :=
  match out with
  | StatusTable table :: _ => row_count <$> table
  | _ => []
  end.

Definition status_after_table (out : list status_msg) : list status_msg :=
  match out with
  | StatusTable _ :: rest => rest
  | _ => out
  end.

(* ===================================================================== *)
(** * Part VII: lemmas and theorems *)
(* ===================================================================== *)

(** ** The store operations, read through [episodes] and [notes] *)

Lemma valid_downloaded : valid_status "downloaded" = true.
Proof. by vm_compute. Qed.

Lemma valid_status_spec (s : string) :
  valid_status s = true ↔
  s = "downloaded" ∨ s = "transcribed" ∨ s = "processed" ∨ s = "failed".
Proof.
  unfold valid_status, statuses. rewrite bool_decide_eq_true.
  rewrite !elem_of_cons, elem_of_nil. tauto.
Qed.

Lemma truthy_int_nonzero (n : Z) : n ≠ 0 → truthy_int (Some n) = Some n.
Proof. intros Hn. simpl. by destruct (Z.eqb_spec n 0). Qed.

Lemma episodes_rewind (id : Z) (db : P3Database) :
  episodes (Db.update_episode_status id "downloaded" db)
  = alter (with_status "downloaded") id (episodes db).
Proof. unfold Db.update_episode_status. by rewrite valid_downloaded. Qed.

Lemma notes_rewind (id : Z) (db : P3Database) :
  notes (Db.update_episode_status id "downloaded" db) = notes db.
Proof. unfold Db.update_episode_status. by rewrite valid_downloaded. Qed.

(** Membership in the two listings, in terms of the store. *)
Lemma elem_of_error_episodes (db : P3Database) (id : Z) (e : Episode) :
  (id, e) ∈ Db.get_error_episodes db ↔ episodes db !! id = Some e ∧ 0 < error_count e.
Proof.
  unfold Db.get_error_episodes. rewrite list_elem_of_filter, elem_of_map_to_list.
  simpl. tauto.
Qed.

Lemma elem_of_episodes_by_status (s : string) (db : P3Database) (id : Z) (e : Episode) :
  (id, e) ∈ Db.get_episodes_by_status s db ↔ episodes db !! id = Some e ∧ status e = s.
Proof.
  unfold Db.get_episodes_by_status. rewrite list_elem_of_filter, elem_of_map_to_list.
  simpl. tauto.
Qed.

Lemma elem_of_error_ids (db : P3Database) (id : Z) :
  id ∈ (Db.get_error_episodes db).*1 ↔
  ∃ e, episodes db !! id = Some e ∧ 0 < error_count e.
Proof.
  rewrite list_elem_of_fmap. split.
  - intros [[k e] [-> Hin]]. exists e. by apply elem_of_error_episodes.
  - intros (e & He & Hpos). exists (id, e). split; [done|].
    by apply elem_of_error_episodes.
Qed.

Lemma NoDup_fst_filter {A B : Type} (P : A * B → Prop) `{∀ x, Decision (P x)}
    (l : list (A * B)) :
  NoDup l.*1 → NoDup (filter P l).*1.
Proof.
  induction l as [|x l IH]; [done|].
  rewrite fmap_cons, NoDup_cons. intros [Hx Hl].
  rewrite filter_cons. destruct (decide (P x)); [|by apply IH].
  rewrite fmap_cons, NoDup_cons. split; [|by apply IH].
  intros Hin. apply Hx. apply list_elem_of_fmap in Hin as (y & -> & Hy).
  apply list_elem_of_filter in Hy as [_ Hy]. apply list_elem_of_fmap. by exists y.
Qed.

(** ** Loops of point updates *)

Section PointUpdates.

(** A loop whose body rewrites, in the store, the episode of the current
    row with an idempotent function [f], and prints one line. *)
Variable f : Episode → Episode.
Variable body : row → cmd_state → cmd_state.
Variable line : row → msg.
Hypothesis f_idem : ∀ e, f (f e) = f e.
Hypothesis body_episodes :
  ∀ r st, episodes (body r st).1 = alter f r.1 (episodes st.1).
Hypothesis body_out : ∀ r st, (body r st).2 = (st.2 ++ [line r])%list.

Lemma for_each_cons (r : row) (l : list row) (st : cmd_state) :
  for_each body (r :: l) st = for_each body l (body r st).
Proof. done. Qed.

Lemma loop_lookup (l : list row) (st : cmd_state) (k : Z) :
  episodes (for_each body l st).1 !! k
  = (if bool_decide (k ∈ l.*1) then f else id) <$> episodes st.1 !! k.
Proof.
  revert st. induction l as [|r l IH]; intros st.
  - simpl. by destruct (episodes st.1 !! k).
  - rewrite for_each_cons, IH, body_episodes, fmap_cons.
    destruct (decide (k = r.1)) as [->|Hne].
    + rewrite lookup_alter_eq.
      rewrite (bool_decide_eq_true_2 (r.1 ∈ r.1 :: l.*1))
        by (apply elem_of_cons; by left).
      destruct (episodes st.1 !! r.1) as [e|]; simpl; [|done].
      case_bool_decide; simpl; by rewrite ?f_idem.
    + rewrite lookup_alter_ne by done.
      by rewrite (bool_decide_ext (k ∈ r.1 :: l.*1) (k ∈ l.*1))
        by (rewrite elem_of_cons; tauto).
Qed.

Lemma loop_out (l : list row) (st : cmd_state) :
  (for_each body l st).2 = (st.2 ++ (line <$> l))%list.
Proof.
  revert st. induction l as [|r l IH]; intros st.
  - simpl. by rewrite app_nil_r.
  - rewrite for_each_cons, IH, body_out, fmap_cons, <- app_assoc. done.
Qed.

End PointUpdates.

Lemma for_each_preserves {A S : Type} (P : S → Prop) (body : A → S → S)
    (l : list A) (s : S) :
  (∀ x s, P s → P (body x s)) → P s → P (for_each body l s).
Proof.
  intros Hbody. revert s. induction l as [|x l IH]; intros s Hs; [done|].
  apply IH, Hbody, Hs.
Qed.

(** ** [retry] *)

Lemma rewound_idem (reset : bool) (e : Episode) :
  rewound reset (rewound reset e) = rewound reset e.
Proof. by destruct reset. Qed.

Lemma retry_one_episodes (reset : bool) (r : row) (st : cmd_state) :
  episodes (retry_one reset r st).1 = alter (rewound reset) r.1 (episodes st.1).
Proof.
  unfold retry_one, say, on_db. destruct reset; cbn [fst snd];
    rewrite episodes_rewind.
  - unfold Db.reset_episode_errors, with_episodes, rewound; cbn [episodes].
    by rewrite alter_alter_eq.
  - done.
Qed.

Lemma retry_one_notes (reset : bool) (r : row) (st : cmd_state) :
  notes (retry_one reset r st).1 = notes st.1.
Proof.
  unfold retry_one, say, on_db. destruct reset; cbn [fst snd];
    by rewrite notes_rewind.
Qed.

Lemma retry_one_out (reset : bool) (r : row) (st : cmd_state) :
  (retry_one reset r st).2 = (st.2 ++ [MsgResetTitle (title r.2)])%list.
Proof. unfold retry_one. by destruct reset. Qed.

(** The single-episode branch of [retry], read at the episode it names. *)
Lemma retry_single_lookup (db : P3Database) (id : Z) (all reset : bool) (e : Episode) :
  id ≠ 0 →
  Db.get_episode_by_id id db = Some e →
  Db.get_episode_by_id id (retry (Some id) all reset db).1 = Some (rewound reset e).
Proof.
  intros Hid Hget. unfold retry. rewrite truthy_int_nonzero, Hget by done.
  unfold Db.get_episode_by_id, say, on_db in *.
  destruct reset; cbn [fst snd]; rewrite episodes_rewind.
  - unfold Db.reset_episode_errors, with_episodes; cbn [episodes].
    by rewrite !lookup_alter_eq, Hget.
  - by rewrite lookup_alter_eq, Hget.
Qed.

(** C2 (as amended). Recovery round trip: for every id other than 0 that
    names a stored episode, [retry] with that id and [reset_errors] set,
    followed by a read of that episode, yields status 'downloaded', error
    count 0 and no last error (nor error timestamp). The command tests
    [--episode-id] by its truth value, so that 0 is read as no id given. *)
Theorem retry_reset_round_trip
    (db : P3Database) (episode_id : Z) (all : bool) (e : Episode) :
  episode_id ≠ 0 →
  Db.get_episode_by_id episode_id db = Some e →
  ∃ e', Db.get_episode_by_id episode_id (retry (Some episode_id) all true db).1 = Some e'
        ∧ status e' = "downloaded"
        ∧ error_count e' = 0
        ∧ last_error e' = None
        ∧ error_timestamp e' = None.
Proof.
  intros Hid Hget. exists (rewound true e). split.
  - by apply retry_single_lookup.
  - done.
Qed.

(** C9 (as amended). Single-episode retry is unconditional: for every id
    other than 0 that names a stored episode, whatever the current status
    and error count of the episode, [retry] leaves it with status
    'downloaded'; nothing else of the episode changes unless the reset of the
    error fields was asked for. *)
Theorem retry_single_unconditional
    (db : P3Database) (episode_id : Z) (all reset_errors : bool) (e : Episode) :
  episode_id ≠ 0 →
  Db.get_episode_by_id episode_id db = Some e →
  Db.get_episode_by_id episode_id (retry (Some episode_id) all reset_errors db).1
  = Some (rewound reset_errors e)
  ∧ status (rewound reset_errors e) = "downloaded".
Proof.
  intros Hid Hget. split; [|done].
  unfold retry. rewrite truthy_int_nonzero, Hget by done.
  unfold Db.get_episode_by_id, say, on_db in *.
  destruct reset_errors; cbn [fst snd]; rewrite episodes_rewind.
  - unfold Db.reset_episode_errors, with_episodes; cbn [episodes].
    by rewrite !lookup_alter_eq, Hget.
  - by rewrite lookup_alter_eq, Hget.
Qed.

(** The option [--episode-id 0] is read as no episode id: without [--all]
    the command asks for a selector and leaves the store as it is. *)
Lemma retry_id_zero_not_given (db : P3Database) (reset : bool) :
  retry (Some 0) false reset db = (db, [MsgSpecifyEpisodeOrAll]).
Proof. done. Qed.

(** C2 as stated fails for an episode stored under the id 0:
    [retry --episode-id 0 --reset-errors] reads the id as not given, and the
    episode read afterwards is as before, transcribed with its three errors
    and its last error. *)
Lemma retry_round_trip_counterexample :
  Db.get_episode_by_id 0 failing_at_zero = Some failing_transcribed
  ∧ retry (Some 0) false true failing_at_zero
    = (failing_at_zero, [MsgSpecifyEpisodeOrAll])
  ∧ Db.get_episode_by_id 0 (retry (Some 0) false true failing_at_zero).1
    = Some failing_transcribed
  ∧ status failing_transcribed = "transcribed"
  ∧ error_count failing_transcribed = 3
  ∧ last_error failing_transcribed = Some "timeout".
Proof. by vm_compute. Qed.

(** C9 as stated fails for an episode stored under the id 0: a processed
    episode with no error is not rewound by [retry --episode-id 0], with or
    without [--all]. *)
Lemma retry_single_counterexample :
  Db.get_episode_by_id 0 done_at_zero = Some done_clean
  ∧ status done_clean = "processed"
  ∧ retry (Some 0) false false done_at_zero = (done_at_zero, [MsgSpecifyEpisodeOrAll])
  ∧ retry (Some 0) true false done_at_zero = (done_at_zero, [MsgNoFailedEpisodes])
  ∧ Db.get_episode_by_id 0 (retry (Some 0) true true done_at_zero).1 = Some done_clean.
Proof. by vm_compute. Qed.

(** C3. Retry-all: [retry --all], with no episode id given, rewrites exactly
    the episodes with [error_count > 0]: each gets status 'downloaded', and
    its error fields cleared when [reset_errors] is set; every other episode
    and the notes are as before; one line is printed per errored episode;
    and with no errored episode the store is not touched at all. *)
Theorem retry_all_semantics
    (episode_id : option Z) (db : P3Database) (reset_errors : bool) :
  truthy_int episode_id = None →
  let st := retry episode_id true reset_errors db in
  (∀ id, episodes st.1 !! id
         = (λ e, if errored e then rewound reset_errors e else e) <$> episodes db !! id)
  ∧ notes st.1 = notes db
  ∧ (Db.get_error_episodes db = [] → st = (db, [MsgNoFailedEpisodes]))
  ∧ (Db.get_error_episodes db ≠ [] →
     st.2 = (MsgFoundFailed (length (Db.get_error_episodes db))
             :: ((λ r : row, MsgResetTitle (title r.2)) <$> Db.get_error_episodes db)
             ++ [MsgResetCount (length (Db.get_error_episodes db))])%list).
Proof.
  intros Hnone. unfold retry. rewrite Hnone. cbv zeta.
  destruct (Db.get_error_episodes db) as [|r l] eqn:Herr.
  - repeat split; try done.
    intros id. destruct (episodes db !! id) as [e|] eqn:He; simpl; [|done].
    unfold errored. case_bool_decide as Hpos; [|done].
    assert (id ∈ (Db.get_error_episodes db).*1) as Hin
      by (apply elem_of_error_ids; eauto).
    rewrite Herr in Hin. by apply elem_of_nil in Hin.
  - rewrite <- Herr. repeat split.
    + intros id. simpl.
      rewrite (loop_lookup (rewound reset_errors) (retry_one reset_errors))
        by (apply rewound_idem || apply retry_one_episodes).
      simpl. destruct (episodes db !! id) as [e|] eqn:He; simpl; [|done].
      f_equal. unfold errored.
      destruct (decide (0 < error_count e)) as [Hpos|Hpos].
      * rewrite bool_decide_eq_true_2 by (apply elem_of_error_ids; eauto).
        by rewrite bool_decide_eq_true_2.
      * rewrite bool_decide_eq_false_2.
        { by rewrite bool_decide_eq_false_2. }
        intros (e' & He' & Hpos')%elem_of_error_ids. congruence.
    + simpl.
      apply (for_each_preserves (λ st, notes st.1 = notes db)); [|done].
      intros x st Hst. by rewrite retry_one_notes.
    + intros Hnil. rewrite Hnil in Herr. done.
    + intros _. simpl.
      rewrite (loop_out (retry_one reset_errors)
                 (λ r : row, MsgResetTitle (title r.2)))
        by apply retry_one_out.
      done.
Qed.

(** On the sample store [retry --all --reset-errors] rewinds and clears the
    errored episodes 2 and 4 and leaves the clean episodes 1 and 3. *)
Lemma retry_all_semantics_witness :
  let st := retry None true true sample_db in
  episodes st.1 !! 2 = Some (rewound true failing_transcribed)
  ∧ episodes st.1 !! 4 = Some (rewound true failing_download)
  ∧ episodes st.1 !! 1 = Some clean_transcribed
  ∧ episodes st.1 !! 3 = Some done_clean.
Proof.
  destruct (retry_all_semantics None sample_db true eq_refl) as [Hlookup _].
  cbv zeta. rewrite !Hlookup. repeat split; reflexivity.
Defined.

Lemma retry_reset_round_trip_witness :
  ∃ e', Db.get_episode_by_id 2 (retry (Some 2) false true sample_db).1 = Some e'
        ∧ status e' = "downloaded"
        ∧ error_count e' = 0
        ∧ last_error e' = None
        ∧ error_timestamp e' = None.
Proof.
  apply (retry_reset_round_trip sample_db 2 false failing_transcribed);
    [lia | reflexivity].
Defined.

(** A cleanly completed episode is rewound as well. *)
Lemma retry_single_unconditional_witness :
  Db.get_episode_by_id 3 (retry (Some 3) false false sample_db).1
  = Some (rewound false done_clean)
  ∧ status (rewound false done_clean) = "downloaded".
Proof.
  apply (retry_single_unconditional sample_db 3 false false done_clean);
    [lia | reflexivity].
Defined.

(** ** [mark_processed] *)

Lemma mark_one_episodes (reason : option string) (r : row) (st : cmd_state) :
  episodes (mark_one reason r st).1 = alter (with_status "processed") r.1 (episodes st.1).
Proof. done. Qed.

Lemma mark_one_out (reason : option string) (r : row) (st : cmd_state) :
  (mark_one reason r st).2 = (st.2 ++ [MsgTick (title r.2)])%list.
Proof. done. Qed.

(** The rows that [mark_processed --podcast] selects are errored rows. *)
Lemma elem_of_podcast_episodes (lower : string → string) (p : string)
    (db : P3Database) (id : Z) :
  id ∈ (filter (λ e : row, matches_podcast lower p e = true) (Db.get_error_episodes db)).*1 →
  ∃ e, episodes db !! id = Some e ∧ 0 < error_count e ∧ matches_podcast lower p (id, e) = true.
Proof.
  intros ([k e] & -> & Hin)%list_elem_of_fmap.
  apply list_elem_of_filter in Hin as [Hmatch Hin].
  apply elem_of_error_episodes in Hin as [He Hpos]. by exists e.
Qed.

(** C4. Force-mark-processed changes the status only: applied to an episode,
    the store operation leaves it the same but for [status = 'processed'];
    and after the command, with either selector, every episode of the store
    is what it was or that with status 'processed', so that its error count,
    last error and error timestamp are what they were: the reason given is
    not written to [last_error]. *)
Theorem mark_processed_frame (lower : string → string)
    (episode_id : option Z) (podcast reason : option string)
    (db : P3Database) (id : Z) (e : Episode) :
  episodes db !! id = Some e →
  episodes (Db.mark_episode_as_processed id reason db) !! id
  = Some (with_status "processed" e)
  ∧ ∃ e', episodes (mark_processed lower episode_id podcast reason db).1 !! id = Some e'
          ∧ (e' = e ∨ e' = with_status "processed" e)
          ∧ error_count e' = error_count e
          ∧ last_error e' = last_error e
          ∧ error_timestamp e' = error_timestamp e.
Proof.
  intros He. split.
  { unfold Db.mark_episode_as_processed; cbn [episodes].
    by rewrite lookup_alter_eq, He. }
  assert (∀ b : bool,
    ∃ e', (if b then with_status "processed" else λ x, x) <$> Some e = Some e'
          ∧ (e' = e ∨ e' = with_status "processed" e)
          ∧ error_count e' = error_count e
          ∧ last_error e' = last_error e
          ∧ error_timestamp e' = error_timestamp e) as Hcase.
  { intros [|]; eexists; (split; [reflexivity|]); simpl; tauto. }
  unfold mark_processed.
  destruct (truthy_int episode_id) as [k|].
  - destruct (Db.get_episode_by_id k db) as [episode|] eqn:Hk.
    + assert (episodes (Db.mark_episode_as_processed k reason db) !! id
              = (if bool_decide (k = id) then with_status "processed" else λ x, x)
                  <$> Some e) as Hlook.
      { unfold Db.mark_episode_as_processed; cbn [episodes].
        destruct (decide (k = id)) as [->|Hne].
        - by rewrite lookup_alter_eq, He, bool_decide_eq_true_2.
        - by rewrite lookup_alter_ne, He, bool_decide_eq_false_2. }
      destruct (truthy_str reason); unfold say; cbn [fst snd];
        rewrite Hlook; apply Hcase.
    + cbn [fst]. rewrite He. apply (Hcase false).
  - destruct (truthy_str podcast) as [p|]; [|cbn [fst]; rewrite He; apply (Hcase false)].
    cbv zeta.
    destruct (filter _ (Db.get_error_episodes db)) as [|r l] eqn:Hsel.
    + cbn [fst]. rewrite He. apply (Hcase false).
    + unfold say; cbn [fst snd].
      rewrite (loop_lookup (with_status "processed") (mark_one reason))
        by (done || apply mark_one_episodes).
      cbn [fst]. rewrite He. apply Hcase.
Qed.

Lemma mark_processed_frame_witness :
  episodes (Db.mark_episode_as_processed 2 (Some "bad audio") sample_db) !! 2
  = Some (with_status "processed" failing_transcribed)
  ∧ ∃ e', episodes (mark_processed PyStr.lower None (Some "night") (Some "bad audio") sample_db).1 !! 2
          = Some e'
          ∧ (e' = failing_transcribed ∨ e' = with_status "processed" failing_transcribed)
          ∧ error_count e' = error_count failing_transcribed
          ∧ last_error e' = last_error failing_transcribed
          ∧ error_timestamp e' = error_timestamp failing_transcribed.
Proof.
  apply (mark_processed_frame PyStr.lower None (Some "night") (Some "bad audio") sample_db 2
           failing_transcribed).
  reflexivity.
Defined.

(** C5. Recovery by podcast name ([mark_processed --podcast], no episode id
    given) resolves against the errored episodes only: when no episode with
    [error_count > 0] has a podcast title matching the name (containing it
    once [str.lower] is applied to both, whatever [str.lower] is), the command
    leaves the store as it is and prints only that no error episode was
    found for that name (no episode is listed, no count of marked episodes);
    and whatever matches, an episode with [error_count = 0] is in the store
    afterwards exactly as before. *)
Theorem mark_by_podcast_errored_only (lower : string → string)
    (episode_id : option Z) (podcast reason : option string)
    (db : P3Database) (p : string) :
  truthy_int episode_id = None →
  truthy_str podcast = Some p →
  ((∀ id e, episodes db !! id = Some e → 0 < error_count e →
            matches_podcast lower p (id, e) = false) →
   mark_processed lower episode_id podcast reason db = (db, [MsgNoErrorEpisodesFor p]))
  ∧ (∀ id e, episodes db !! id = Some e → error_count e = 0 →
             episodes (mark_processed lower episode_id podcast reason db).1 !! id = Some e).
Proof.
  intros Hid Hp. unfold mark_processed. rewrite Hid, Hp. cbv zeta.
  destruct (filter _ (Db.get_error_episodes db)) as [|r l] eqn:Hsel.
  - split; [done|]. intros id e He _. done.
  - split.
    + intros Hnone. exfalso.
      destruct (elem_of_podcast_episodes lower p db r.1) as (e & He & Hpos & Hmatch).
      { rewrite Hsel, fmap_cons. apply elem_of_cons. by left. }
      rewrite (Hnone r.1 e He Hpos) in Hmatch. done.
    + intros id e He Hzero. unfold say; cbn [fst snd].
      rewrite (loop_lookup (with_status "processed") (mark_one reason))
        by (done || apply mark_one_episodes).
      cbn [fst]. rewrite He. rewrite <- Hsel.
      rewrite bool_decide_eq_false_2; [done|].
      intros (e' & He' & Hpos & _)%elem_of_podcast_episodes.
      assert (e' = e) as -> by congruence. lia.
Qed.

Lemma mark_by_podcast_errored_only_witness :
  ((∀ id e, episodes sample_db !! id = Some e → 0 < error_count e →
            matches_podcast PyStr.lower "Example Show" (id, e) = false) →
   mark_processed PyStr.lower None (Some "Example Show") (Some "stuck") sample_db
   = (sample_db, [MsgNoErrorEpisodesFor "Example Show"]))
  ∧ (∀ id e, episodes sample_db !! id = Some e → error_count e = 0 →
             episodes (mark_processed PyStr.lower None (Some "Example Show") (Some "stuck")
                         sample_db).1 !! id = Some e).
Proof.
  apply (mark_by_podcast_errored_only PyStr.lower None (Some "Example Show") (Some "stuck")
           sample_db "Example Show"); reflexivity.
Defined.

(** On the sample store no errored episode is of "Example Show": the command
    changes nothing. *)
Lemma mark_by_podcast_no_match_example :
  mark_processed PyStr.lower None (Some "Example Show") (Some "stuck") sample_db
  = (sample_db, [MsgNoErrorEpisodesFor "Example Show"]).
Proof. by vm_compute. Qed.

(** ** [errors] *)

Lemma listed_ids_errors (show_all : bool) (db : P3Database) (id : Z) :
  id ∈ listed_ids (errors show_all db) ↔
  ∃ e, episodes db !! id = Some e ∧ 0 < error_count e.
Proof.
  rewrite <- elem_of_error_ids. unfold errors.
  destruct (Db.get_error_episodes db) as [|r l]; [done|].
  unfold listed_ids. by rewrite <- list_fmap_compose.
Qed.

(** ** [digest] *)

Section DigestFacts.

Variable llm : TranscriptCleaner → P3Database → Z → outcome.
Variable cleaner : TranscriptCleaner.
Variable skip_errors : bool.
Variable max_retries : Z.

Lemma generate_summary_other (id k : Z) (db : P3Database) :
  k ≠ id →
  episodes (generate_summary llm cleaner id skip_errors db).1 !! k = episodes db !! k.
Proof.
  intros Hne. unfold generate_summary.
  destruct (Db.get_episode_by_id id db) as [e|]; [|done].
  destruct (negb _); [done|]. destruct (_ && _); [done|].
  destruct (llm cleaner db id); cbn [fst];
    unfold Db.record_success, Db.record_failure, with_episodes; cbn [episodes];
    by rewrite lookup_alter_ne.
Qed.

Lemma generate_summary_notes (id : Z) (db : P3Database) :
  notes (generate_summary llm cleaner id skip_errors db).1 = notes db.
Proof.
  unfold generate_summary.
  destruct (Db.get_episode_by_id id db) as [e|]; [|done].
  destruct (negb _); [done|]. destruct (_ && _); [done|].
  by destruct (llm cleaner db id).
Qed.

(** A true result: the episode was there, transcribed, and is now processed
    with its summary attached; its error fields are as they were. *)
Lemma generate_summary_true (id : Z) (db db' : P3Database) :
  generate_summary llm cleaner id skip_errors db = (db', true) →
  ∃ e a, episodes db !! id = Some e ∧ status e = "transcribed"
         ∧ episodes db' !! id = Some (with_summary (Some a) (with_status "processed" e)).
Proof.
  unfold generate_summary, Db.get_episode_by_id.
  destruct (episodes db !! id) as [e|] eqn:He; [|done].
  case_bool_decide as Hst; cbn [negb]; [|done].
  destruct (_ && _); [done|].
  destruct (llm cleaner db id) as [a|reason now]; [|done].
  intros [= <-]. exists e, a. repeat split; [done|].
  unfold Db.record_success, with_episodes; cbn [episodes].
  by rewrite lookup_alter_eq, He.
Qed.

(** A false result leaves the status of the episode as it was. *)
Lemma generate_summary_false (id : Z) (db db' : P3Database) :
  generate_summary llm cleaner id skip_errors db = (db', false) →
  status_in db' id = status_in db id.
Proof.
  unfold generate_summary, Db.get_episode_by_id, status_in.
  destruct (episodes db !! id) as [e|] eqn:He; [|by intros [= <-]; rewrite He].
  destruct (negb _); [by intros [= <-]; rewrite He|].
  destruct (_ && _); [by intros [= <-]; rewrite He|].
  destruct (llm cleaner db id) as [a|reason now]; [done|].
  intros [= <-]. unfold Db.record_failure, with_episodes; cbn [episodes].
  by rewrite lookup_alter_eq, He.
Qed.

Lemma digest_step_trace (r : row) (b : batch) :
  trace (digest_step llm cleaner skip_errors max_retries r b)
  = (trace b ++ [batch_event skip_errors max_retries r])%list.
Proof.
  unfold digest_step, batch_event. case_bool_decide; [done|].
  by destruct (generate_summary _ _ _ _ _).
Qed.

Lemma digest_step_other (r : row) (b : batch) (k : Z) :
  (k = r.1 → max_retries ≤ error_count r.2) →
  episodes (batch_db (digest_step llm cleaner skip_errors max_retries r b)) !! k
  = episodes (batch_db b) !! k.
Proof.
  intros Hk. unfold digest_step. case_bool_decide as Hskip; [done|].
  destruct (generate_summary _ _ _ _ _) as [db' result] eqn:Hgs. cbn [batch_db].
  replace db' with (generate_summary llm cleaner r.1 skip_errors (batch_db b)).1
    by (by rewrite Hgs).
  apply generate_summary_other. intros ->. by apply Hskip, Hk.
Qed.

Lemma digest_step_notes (r : row) (b : batch) :
  notes (batch_db (digest_step llm cleaner skip_errors max_retries r b))
  = notes (batch_db b).
Proof.
  unfold digest_step. case_bool_decide; [done|].
  destruct (generate_summary _ _ _ _ _) as [db' result] eqn:Hgs. cbn [batch_db].
  replace db' with (generate_summary llm cleaner r.1 skip_errors (batch_db b)).1
    by (by rewrite Hgs).
  apply generate_summary_notes.
Qed.

Lemma digest_loop_cons (r : row) (l : list row) (b : batch) :
  digest_loop llm cleaner skip_errors max_retries (r :: l) b
  = digest_loop llm cleaner skip_errors max_retries l
      (digest_step llm cleaner skip_errors max_retries r b).
Proof. done. Qed.

Lemma digest_loop_app (l1 l2 : list row) (b : batch) :
  digest_loop llm cleaner skip_errors max_retries (l1 ++ l2) b
  = digest_loop llm cleaner skip_errors max_retries l2
      (digest_loop llm cleaner skip_errors max_retries l1 b).
Proof. unfold digest_loop, for_each. apply foldl_app. Qed.

(** The trace of the loop is read off the batch: one event per row, in
    order, whatever the results of the calls. *)
Lemma digest_loop_trace (l : list row) (b : batch) :
  trace (digest_loop llm cleaner skip_errors max_retries l b)
  = (trace b ++ (batch_event skip_errors max_retries <$> l))%list.
Proof.
  revert b. induction l as [|r l IH]; intros b.
  - simpl. by rewrite app_nil_r.
  - rewrite digest_loop_cons, IH, digest_step_trace, fmap_cons, <- app_assoc. done.
Qed.

(** The loop leaves alone every episode that it does not pass to the
    cleaner. *)
Lemma digest_loop_other (l : list row) (b : batch) (k : Z) :
  (∀ r, r ∈ l → k = r.1 → max_retries ≤ error_count r.2) →
  episodes (batch_db (digest_loop llm cleaner skip_errors max_retries l b)) !! k
  = episodes (batch_db b) !! k.
Proof.
  revert b. induction l as [|r l IH]; intros b Hl; [done|].
  rewrite digest_loop_cons, IH.
  - apply digest_step_other, Hl. apply elem_of_cons. by left.
  - intros r' Hr'. apply Hl. apply elem_of_cons. by right.
Qed.

Lemma digest_loop_notes (l : list row) (b : batch) :
  notes (batch_db (digest_loop llm cleaner skip_errors max_retries l b))
  = notes (batch_db b).
Proof.
  revert b. induction l as [|r l IH]; intros b; [done|].
  by rewrite digest_loop_cons, IH, digest_step_notes.
Qed.

End DigestFacts.

Lemma summarize_in_prints (id : Z) (sk : bool) (header tail events : list event) :
  Forall (λ ev, is_print ev = true) header →
  Forall (λ ev, is_print ev = true) tail →
  Summarize id sk ∈ (header ++ events ++ tail)%list ↔ Summarize id sk ∈ events.
Proof.
  intros Hh Ht. rewrite !elem_of_app. split; [|tauto].
  intros [Hin|[Hin|Hin]]; [|done|].
  - rewrite Forall_forall in Hh. by apply Hh in Hin.
  - rewrite Forall_forall in Ht. by apply Ht in Hin.
Qed.

Lemma summarize_in_batch_events (id : Z) (sk : bool) (R : Z) (l : list row) :
  Summarize id sk ∈ batch_event sk R <$> l ↔ ∃ e, (id, e) ∈ l ∧ error_count e < R.
Proof.
  rewrite list_elem_of_fmap. unfold batch_event. split.
  - intros ([k e] & Hev & Hin). simpl in Hev.
    case_bool_decide as Hskip; [done|]. injection Hev as ->.
    exists e. split; [done|lia].
  - intros (e & Hin & Hlt). exists (id, e). split; [|done]. simpl.
    by rewrite bool_decide_eq_false_2 by lia.
Qed.

(** A batch run of [digest]: the store it ends with is the one the loop
    ends with, and its trace is the events of the batch between two runs of
    printed lines. *)
Lemma digest_batch_run (llm : TranscriptCleaner → P3Database → Z → outcome)
    (settings : settings) (provider model : option string)
    (episode_id : option Z) (skip_errors : bool) (max_retries : Z) (db : P3Database) :
  truthy_int episode_id = None →
  ∃ tail,
    Forall (λ ev, is_print ev = true) (batch_header skip_errors)
    ∧ Forall (λ ev, is_print ev = true) tail
    ∧ digest llm (Loaded settings) provider model episode_id skip_errors max_retries db
      = (batch_db (digest_loop llm (cleaner_of settings provider model) skip_errors
                     max_retries (digest_batch db) (batch_start skip_errors db)),
         (batch_header skip_errors
          ++ (batch_event skip_errors max_retries <$> digest_batch db) ++ tail)%list).
Proof.
  intros Hnone. unfold digest. rewrite Hnone. cbv zeta.
  fold (digest_batch db).
  assert (Forall (λ ev, is_print ev = true) (batch_header skip_errors)) as Hh
    by (destruct skip_errors; repeat constructor).
  destruct (digest_batch db) as [|r l] eqn:Hbatch.
  - exists [Print DNoEpisodes]. repeat split; [done|repeat constructor].
  - eexists. split; [done|split].
    + shelve.
    + f_equal. rewrite digest_loop_trace. cbn [trace batch_start].
      rewrite <- app_assoc. reflexivity.
  Unshelve. destruct (Nat.ltb _ _); repeat constructor.
Qed.

(** C1 (as amended). Retry ceiling in a batch run of [digest] with
    [max_retries = R]: the cleaner is called for an episode exactly when the
    episode is in the store with status 'transcribed' and [error_count < R];
    an episode with [error_count >= R] is not passed to the cleaner and is
    in the store afterwards as it was before; such an episode is in the
    table that [errors] prints exactly when its [error_count > 0], which is
    always so when [R >= 1]. *)
Theorem digest_batch_eligibility
    (llm : TranscriptCleaner → P3Database → Z → outcome)
    (settings : settings) (provider model : option string)
    (episode_id : option Z) (skip_errors : bool) (R : Z) (db : P3Database) :
  truthy_int episode_id = None →
  let run := digest llm (Loaded settings) provider model episode_id skip_errors R db in
  (∀ id, Summarize id skip_errors ∈ run.2 ↔
         ∃ e, episodes db !! id = Some e ∧ status e = "transcribed" ∧ error_count e < R)
  ∧ (∀ show_all id e,
       episodes db !! id = Some e → R ≤ error_count e →
       (Summarize id skip_errors ∉ run.2)
       ∧ episodes run.1 !! id = Some e
       ∧ (id ∈ listed_ids (errors show_all run.1) ↔ 0 < error_count e)
       ∧ (1 ≤ R → id ∈ listed_ids (errors show_all run.1))).
Proof.
  intros Hnone run.
  destruct (digest_batch_run llm settings provider model episode_id skip_errors R db Hnone)
    as (tail & Hh & Ht & Hrun).
  subst run. rewrite Hrun. cbn [fst snd].
  assert (∀ id, Summarize id skip_errors
                  ∈ (batch_header skip_errors
                     ++ (batch_event skip_errors R <$> digest_batch db) ++ tail)%list
                ↔ ∃ e, episodes db !! id = Some e ∧ status e = "transcribed"
                       ∧ error_count e < R) as Hcalled.
  { intros id. rewrite summarize_in_prints, summarize_in_batch_events by done.
    unfold digest_batch. split.
    - intros (e & [He Hst]%elem_of_episodes_by_status & Hlt). by exists e.
    - intros (e & He & Hst & Hlt). exists e. split; [|done].
      by apply elem_of_episodes_by_status. }
  split; [exact Hcalled|].
  intros show_all id e He Hge.
  assert (episodes (batch_db (digest_loop llm (cleaner_of settings provider model)
                     skip_errors R (digest_batch db) (batch_start skip_errors db)))
            !! id = Some e) as Hkept.
  { rewrite digest_loop_other; [done|].
    intros [k e'] [He' _]%elem_of_episodes_by_status ->. simpl in *.
    assert (e' = e) as -> by congruence. done. }
  assert (id ∈ listed_ids (errors show_all (batch_db (digest_loop llm
                     (cleaner_of settings provider model)
                     skip_errors R (digest_batch db) (batch_start skip_errors db))))
          ↔ 0 < error_count e) as Hlisted.
  { rewrite listed_ids_errors. split.
    - intros (e' & He' & Hpos). by assert (e' = e) as -> by congruence.
    - intros Hpos. by exists e. }
  repeat split.
  - rewrite Hcalled. intros (e' & He' & _ & Hlt).
    assert (e' = e) as -> by congruence. lia.
  - exact Hkept.
  - apply Hlisted.
  - apply Hlisted.
  - intros HR. apply Hlisted. lia.
Qed.

Lemma digest_batch_eligibility_witness :
  let run := digest sample_llm (Loaded sample_settings) None None None false 3 sample_db in
  Summarize 1 false ∈ run.2
  ∧ (Summarize 2 false ∉ run.2)
  ∧ episodes run.1 !! 2 = Some failing_transcribed
  ∧ 2 ∈ listed_ids (errors true run.1).
Proof.
  destruct (digest_batch_eligibility sample_llm sample_settings None None None false 3
              sample_db eq_refl) as [Hcalled Hskipped].
  split.
  - apply Hcalled. exists clean_transcribed.
    split; [reflexivity|split; [reflexivity|simpl; lia]].
  - destruct (Hskipped true 2 failing_transcribed) as (Hnot & Hkept & _ & Hlisted).
    + reflexivity.
    + simpl. lia.
    + split; [exact Hnot|split; [exact Hkept|apply Hlisted; lia]].
Defined.

(** C1 as stated fails for [--max-retries 0]: the clean transcribed episode 1
    of the sample store has [error_count = 0 >= 0], the batch loop skips it,
    and the table that [errors] prints does not show it. *)
Lemma retry_ceiling_counterexample :
  let run := digest sample_llm (Loaded sample_settings) None None None false 0 sample_db in
  episodes sample_db !! 1 = Some clean_transcribed
  ∧ status clean_transcribed = "transcribed"
  ∧ 0 ≤ error_count clean_transcribed
  ∧ (Summarize 1 false ∉ run.2)
  ∧ (1 ∉ listed_ids (errors false run.1))
  ∧ (1 ∉ listed_ids (errors true run.1)).
Proof.
  cbv zeta. repeat split; try done.
  - apply (bool_decide_unpack _). by vm_compute.
  - apply (bool_decide_unpack _). by vm_compute.
  - apply (bool_decide_unpack _). by vm_compute.
Qed.

(** ** Partial progress of a batch *)

Section DigestProgress.

Variable llm : TranscriptCleaner → P3Database → Z → outcome.
Variable cleaner : TranscriptCleaner.
Variable skip_errors : bool.
Variable max_retries : Z.

Lemma digest_loop_fresh (l : list row) (b : batch) (k : Z) :
  k ∉ l.*1 →
  episodes (batch_db (digest_loop llm cleaner skip_errors max_retries l b)) !! k
  = episodes (batch_db b) !! k.
Proof.
  intros Hk. apply digest_loop_other. intros r Hr ->. exfalso. apply Hk.
  apply list_elem_of_fmap. by exists r.
Qed.

(** What one step does to the counters, told from the status that the
    store shows for the row afterwards. *)
Lemma digest_step_counts (r : row) (b : batch) :
  episodes (batch_db b) !! r.1 = Some r.2 →
  status r.2 = "transcribed" →
  let b' := digest_step llm cleaner skip_errors max_retries r b in
  (status_in (batch_db b') r.1 = Some "processed"
   ∧ error_count r.2 < max_retries
   ∧ processed b' = S (processed b) ∧ failed b' = failed b)
  ∨ (status_in (batch_db b') r.1 = Some "transcribed"
     ∧ error_count r.2 < max_retries
     ∧ processed b' = processed b ∧ failed b' = S (failed b))
  ∨ (status_in (batch_db b') r.1 = Some "transcribed"
     ∧ max_retries ≤ error_count r.2
     ∧ processed b' = processed b ∧ failed b' = failed b).
Proof.
  intros Hr Hst b'. subst b'. unfold digest_step.
  case_bool_decide as Hskip.
  - right. right. cbn [batch_db processed failed]. unfold status_in.
    by rewrite Hr, <- Hst.
  - destruct (generate_summary _ _ _ _ _) as [db' [|]] eqn:Hgs;
      cbn [batch_db processed failed].
    + left. apply generate_summary_true in Hgs as (e & a & He & _ & He').
      unfold status_in. rewrite He'. repeat split; try done; lia.
    + right. left. apply generate_summary_false in Hgs.
      rewrite Hgs. unfold status_in. rewrite Hr, <- Hst. repeat split; try done; lia.
Qed.

(** The counters after the loop are the numbers of rows that the final
    store shows as processed and, among the rows under the ceiling, as still
    transcribed. *)
Lemma digest_loop_counts (l : list row) (b : batch) :
  NoDup l.*1 →
  (∀ r, r ∈ l → episodes (batch_db b) !! r.1 = Some r.2 ∧ status r.2 = "transcribed") →
  let b' := digest_loop llm cleaner skip_errors max_retries l b in
  processed b' = (processed b + length (succeeded_in (batch_db b') l))%nat
  ∧ failed b' = (failed b + length (failed_in max_retries (batch_db b') l))%nat.
Proof.
  revert b. induction l as [|r l IH]; intros b Hnd Hl.
  { simpl. unfold succeeded_in, failed_in. simpl. lia. }
  rewrite fmap_cons, NoDup_cons in Hnd. destruct Hnd as [Hr Hnd].
  cbv zeta. rewrite digest_loop_cons.
  set (b1 := digest_step llm cleaner skip_errors max_retries r b).
  destruct (IH b1 Hnd) as [IHp IHf].
  { intros r' Hr'. destruct (Hl r') as [He Hst]; [apply elem_of_cons; by right|].
    split; [|done]. unfold b1. rewrite digest_step_other; [done|].
    intros Heq. exfalso. apply Hr. rewrite <- Heq. apply list_elem_of_fmap. by exists r'. }
  cbv zeta in IHp, IHf. rewrite IHp, IHf.
  set (b' := digest_loop llm cleaner skip_errors max_retries l b1).
  assert (status_in (batch_db b') r.1 = status_in (batch_db b1) r.1) as Hhead.
  { unfold status_in, b'. by rewrite digest_loop_fresh. }
  destruct (Hl r) as [He Hst]; [apply elem_of_cons; by left|].
  unfold succeeded_in, failed_in. rewrite !filter_cons. rewrite Hhead.
  destruct (digest_step_counts r b He Hst) as
    [(Hs & Hlt & Hp & Hf)|[(Hs & Hlt & Hp & Hf)|(Hs & Hlt & Hp & Hf)]];
    fold b1 in Hs, Hp, Hf; rewrite Hs, Hp, Hf.
  - rewrite decide_True by done. rewrite decide_False by (intros [_ [=]]).
    simpl. lia.
  - rewrite decide_False by (intros [=]). rewrite decide_True by done.
    simpl. lia.
  - rewrite decide_False by (intros [=]). rewrite decide_False by (intros [? _]; lia).
    simpl. lia.
Qed.

End DigestProgress.

Lemma NoDup_digest_batch (db : P3Database) : NoDup (digest_batch db).*1.
Proof. apply NoDup_fst_filter, NoDup_fst_map_to_list. Qed.

Lemma digest_batch_rows (db : P3Database) (r : row) :
  r ∈ digest_batch db →
  episodes db !! r.1 = Some r.2 ∧ status r.2 = "transcribed".
Proof. destruct r as [id e]. apply elem_of_episodes_by_status. Qed.

(** C6. Partial progress of a batch run of [digest]: the run is a total
    function of the store and of the results of the calls (a false result of
    a call ends nothing: every row of the batch has its event in the trace);
    after the events it prints the number of rows of the batch that the
    final store shows as processed and, when it is not zero, the number of
    rows under the retry ceiling that the final store shows as still
    transcribed; and an episode whose call returned a true result is, in the
    final store, exactly as that call left it, with status 'processed',
    whatever happens to the rows after it. With no transcribed episode the
    run prints that there is nothing to process and leaves the store. *)
Theorem digest_partial_progress
    (llm : TranscriptCleaner → P3Database → Z → outcome)
    (settings : settings) (provider model : option string)
    (episode_id : option Z) (skip_errors : bool) (R : Z) (db : P3Database) :
  truthy_int episode_id = None →
  let cleaner := cleaner_of settings provider model in
  let run := digest llm (Loaded settings) provider model episode_id skip_errors R db in
  (digest_batch db = [] →
   run = (db, (batch_header skip_errors ++ [Print DNoEpisodes])%list))
  ∧ (digest_batch db ≠ [] →
     run.2 = (batch_header skip_errors
              ++ (batch_event skip_errors R <$> digest_batch db)
              ++ Print (DProcessed (length (succeeded_in run.1 (digest_batch db))))
                 :: if Nat.ltb 0 (length (failed_in R run.1 (digest_batch db)))
                    then [Print (DFailed (length (failed_in R run.1 (digest_batch db))));
                          Print DHintErrorsOrRetry]
                    else [])%list)
  ∧ (∀ l1 r l2 db2,
       digest_batch db = (l1 ++ r :: l2)%list →
       error_count r.2 < R →
       generate_summary llm cleaner r.1 skip_errors
         (batch_db (digest_loop llm cleaner skip_errors R l1 (batch_start skip_errors db)))
       = (db2, true) →
       episodes run.1 !! r.1 = episodes db2 !! r.1
       ∧ status_in run.1 r.1 = Some "processed").
Proof.
  intros Hnone cleaner run.
  assert (run.1 = batch_db (digest_loop llm cleaner skip_errors R (digest_batch db)
                              (batch_start skip_errors db))) as Hstore.
  { destruct (digest_batch_run llm settings provider model episode_id skip_errors R db
                Hnone) as (tail & _ & _ & Hrun).
    subst run. by rewrite Hrun. }
  split; [|split].
  - intros Hnil. subst run. unfold digest. rewrite Hnone. cbv zeta.
    fold (digest_batch db). by rewrite Hnil.
  - intros Hne. rewrite Hstore.
    destruct (digest_loop_counts llm cleaner skip_errors R (digest_batch db)
                (batch_start skip_errors db)) as [Hp Hf].
    { apply NoDup_digest_batch. }
    { intros r Hr. by apply digest_batch_rows. }
    cbv zeta in Hp, Hf. cbn [batch_start processed failed] in Hp, Hf.
    rewrite !Nat.add_0_l in Hp, Hf. rewrite <- Hp, <- Hf.
    subst run. unfold digest. rewrite Hnone. cbv zeta.
    fold cleaner. fold (digest_batch db).
    destruct (digest_batch db) as [|r l] eqn:Hbatch; [done|].
    cbn [snd]. rewrite digest_loop_trace. cbn [batch_start trace].
    by rewrite <- app_assoc.
  - intros l1 r l2 db2 Hsplit Hlt Hgs.
    assert (episodes run.1 !! r.1 = episodes db2 !! r.1) as Hkept.
    { rewrite Hstore, Hsplit, digest_loop_app, digest_loop_cons.
      rewrite digest_loop_fresh.
      - unfold digest_step. rewrite bool_decide_eq_false_2 by lia.
        by rewrite Hgs.
      - pose proof (NoDup_digest_batch db) as Hnd.
        rewrite Hsplit, fmap_app, fmap_cons in Hnd.
        apply NoDup_app in Hnd as (_ & _ & Hnd).
        by apply NoDup_cons in Hnd as [Hr _]. }
    split; [exact Hkept|].
    unfold status_in. rewrite Hkept.
    apply generate_summary_true in Hgs as (e & a & _ & _ & ->). done.
Qed.

Lemma digest_partial_progress_witness :
  let cleaner := cleaner_of sample_settings None None in
  let run := digest sample_llm (Loaded sample_settings) None None None false 5 sample_db in
  (digest_batch sample_db = [] →
   run = (sample_db, (batch_header false ++ [Print DNoEpisodes])%list))
  ∧ (digest_batch sample_db ≠ [] →
     run.2 = (batch_header false
              ++ (batch_event false 5 <$> digest_batch sample_db)
              ++ Print (DProcessed (length (succeeded_in run.1 (digest_batch sample_db))))
                 :: if Nat.ltb 0 (length (failed_in 5 run.1 (digest_batch sample_db)))
                    then [Print (DFailed (length (failed_in 5 run.1 (digest_batch sample_db))));
                          Print DHintErrorsOrRetry]
                    else [])%list)
  ∧ (∀ l1 r l2 db2,
       digest_batch sample_db = (l1 ++ r :: l2)%list →
       error_count r.2 < 5 →
       generate_summary sample_llm cleaner r.1 false
         (batch_db (digest_loop sample_llm cleaner false 5 l1 (batch_start false sample_db)))
       = (db2, true) →
       episodes run.1 !! r.1 = episodes db2 !! r.1
       ∧ status_in run.1 r.1 = Some "processed").
Proof.
  apply (digest_partial_progress sample_llm sample_settings None None None false 5
           sample_db).
  reflexivity.
Defined.

(** On the sample store, with the ceiling at 5: episode 2 is tried first and
    succeeds, episode 1 is tried after it and fails; the run prints one
    processed and one failed, episode 2 stays processed and episode 1 is
    still transcribed, with one error. *)
Lemma digest_partial_progress_example :
  let run := digest sample_llm (Loaded sample_settings) None None None false 5 sample_db in
  run.2 = [Print DProcessingAll; Summarize 2 false; Summarize 1 false;
           Print (DProcessed 1); Print (DFailed 1); Print DHintErrorsOrRetry]
  ∧ status_in run.1 2 = Some "processed"
  ∧ status_in run.1 1 = Some "transcribed"
  ∧ error_count <$> episodes run.1 !! 1 = Some 1.
Proof. by vm_compute. Qed.

(** ** [export] and [write] *)

Lemma truthy_str_nonempty (s : string) : s ≠ "" → truthy_str (Some s) = Some s.
Proof. by destruct s. Qed.

Lemma parse_date_rejects (strptime : string → option date) (now : date) (s : string) :
  s ≠ "" → strptime s = None → parse_date strptime now (Some s) = None.
Proof. intros Hs Hparse. unfold parse_date. by rewrite truthy_str_nonempty. Qed.

(** C7 (as amended). A date option that is not empty and that
    [strptime(date, '%Y-%m-%d')] rejects makes [export] and [write] print
    the error and return at once: their traces hold no query of the store,
    no file written and no call of a collaborator; with the configuration
    loaded they are the one line "Invalid date format", so that the whole
    invocation is the opening of the store by the command group followed by
    that line. *)
Theorem bad_date_rejected_before_store
    (strptime : string → option date)
    (now : date) (get_summaries_by_date : date → list string)
    (export_markdown export_json : list string → date → string)
    (config : loaded) (db date_str topic : string)
    (format : list string) (output : option string) :
  date_str ≠ "" →
  strptime date_str = None →
  Forall (λ ev, is_effect ev = false)
    (export strptime now get_summaries_by_date export_markdown export_json
       config (Some date_str) format output)
  ∧ Forall (λ ev, is_effect ev = false)
      (write strptime now get_summaries_by_date config topic (Some date_str))
  ∧ (∀ settings,
       config = Loaded settings →
       export strptime now get_summaries_by_date export_markdown export_json
         config (Some date_str) format output = [Tell IoInvalidDate]
       ∧ write strptime now get_summaries_by_date config topic (Some date_str)
         = [Tell IoInvalidDate]
       ∧ main db (export strptime now get_summaries_by_date export_markdown export_json
                    config (Some date_str) format output)
         = [OpenStore db; InCommand (Tell IoInvalidDate)]
       ∧ main db (write strptime now get_summaries_by_date config topic (Some date_str))
         = [OpenStore db; InCommand (Tell IoInvalidDate)]).
Proof.
  intros Hs Hparse. unfold main, export, write.
  destruct config as [settings| |e]; rewrite ?parse_date_rejects by done.
  - repeat split; try by repeat constructor.
  - repeat split; try by repeat constructor. all: by intros ? [=].
  - repeat split; try by repeat constructor. all: by intros ? [=].
Qed.

Lemma bad_date_rejected_before_store_witness :
  Forall (λ ev, is_effect ev = false)
    (export strptime_ymd sample_now sample_summaries sample_markdown sample_json
       (Loaded sample_settings) (Some "01/06/2024") ["json"] None)
  ∧ Forall (λ ev, is_effect ev = false)
      (write strptime_ymd sample_now sample_summaries (Loaded sample_settings) "retries"
         (Some "01/06/2024"))
  ∧ (∀ settings,
       Loaded sample_settings = Loaded settings →
       export strptime_ymd sample_now sample_summaries sample_markdown sample_json
         (Loaded sample_settings) (Some "01/06/2024") ["json"] None = [Tell IoInvalidDate]
       ∧ write strptime_ymd sample_now sample_summaries (Loaded sample_settings) "retries"
           (Some "01/06/2024")
         = [Tell IoInvalidDate]
       ∧ main "data/p3.duckdb"
           (export strptime_ymd sample_now sample_summaries sample_markdown sample_json
              (Loaded sample_settings) (Some "01/06/2024") ["json"] None)
         = [OpenStore "data/p3.duckdb"; InCommand (Tell IoInvalidDate)]
       ∧ main "data/p3.duckdb"
           (write strptime_ymd sample_now sample_summaries (Loaded sample_settings)
              "retries" (Some "01/06/2024"))
         = [OpenStore "data/p3.duckdb"; InCommand (Tell IoInvalidDate)]).
Proof.
  apply (bad_date_rejected_before_store strptime_ymd sample_now sample_summaries
           sample_markdown sample_json (Loaded sample_settings) "data/p3.duckdb"
           "01/06/2024" "retries" ["json"] None).
  - discriminate.
  - reflexivity.
Defined.

(** C7 as stated fails in three ways. The store is opened by the command
    group before the command looks at the date, also for a date that is
    then rejected. The empty string, which is not of the form YYYY-MM-DD,
    counts as no date: the commands take today's date, query the store and
    go on ([export] writes a file, [write] calls the writer). And
    "2024-1-5", not of that form either, is accepted by the parser, with
    the same effects. *)
Lemma bad_date_counterexample :
  main "data/p3.duckdb"
    (export strptime_ymd sample_now sample_summaries sample_markdown sample_json
       (Loaded sample_settings) (Some "yesterday") [] None)
  = [OpenStore "data/p3.duckdb"; InCommand (Tell IoInvalidDate)]
  ∧ yyyy_mm_dd_form "" = false
  ∧ export strptime_ymd sample_now sample_summaries sample_markdown sample_json
      (Loaded sample_settings) (Some "") [] None
    = [QuerySummaries sample_now;
       Tell (IoExporting 1 sample_now);
       WriteFile (DigestOf sample_now "md") "# Digest";
       Tell (IoExported "markdown" (DigestOf sample_now "md"))]
  ∧ write strptime_ymd sample_now sample_summaries (Loaded sample_settings) "retries" (Some "")
    = [QuerySummaries sample_now;
       Tell (IoGenerating "retries" 1 sample_now);
       GenerateBlogPost "retries" "summary of the pilot";
       Tell IoBlogResults; SaveBlogPost; Tell IoSavedTo;
       GenerateSocialPosts; Tell IoSocialPosts; Tell IoPreview]
  ∧ yyyy_mm_dd_form "2024-1-5" = false
  ∧ export strptime_ymd sample_now sample_summaries sample_markdown sample_json
      (Loaded sample_settings) (Some "2024-1-5") [] None
    = [QuerySummaries (mkDate 2024 1 5);
       Tell (IoExporting 1 (mkDate 2024 1 5));
       WriteFile (DigestOf (mkDate 2024 1 5) "md") "# Digest";
       Tell (IoExported "markdown" (DigestOf (mkDate 2024 1 5) "md"))].
Proof. by vm_compute. Qed.

(** A date of the form YYYY-MM-DD that is a day of the calendar is parsed
    to that day; one that is not a day of the calendar is rejected. *)
Lemma strptime_examples :
  strptime_ymd "2024-02-29" = Some (mkDate 2024 2 29)
  ∧ strptime_ymd "2023-02-29" = None
  ∧ strptime_ymd "2024-13-01" = None
  ∧ strptime_ymd "2024-01-32" = None
  ∧ strptime_ymd "yesterday" = None.
Proof. by vm_compute. Qed.

(** ** The migration *)

Module MigrateFacts.
Import Migrate.

Lemma same_identifier_refl (a : string) : same_identifier a a = true.
Proof. unfold same_identifier. apply String.eqb_refl. Qed.

Lemma has_column_exact (c : string) (t : table) :
  c ∈ column_name <$> columns t → has_column c t = true.
Proof.
  intros (col & -> & Hin)%list_elem_of_fmap. unfold has_column.
  apply existsb_exists. exists col. split; [by apply list_elem_of_In|].
  apply same_identifier_refl.
Qed.

Lemma has_column_add (m n : string) (ty : sqltype) (d : value) (t : table) :
  has_column m (add_column n ty d t) = (has_column m t || same_identifier n m)%bool.
Proof.
  unfold has_column, add_column; cbn [columns].
  rewrite existsb_app. cbn [existsb column_name]. by rewrite orb_false_r.
Qed.

Lemma find_column_add (m n : string) (ty : sqltype) (d : value) (t : table) :
  same_identifier n m = false →
  find_column m (add_column n ty d t) = find_column m t.
Proof.
  intros Hne. unfold find_column, add_column; cbn [columns].
  induction (columns t) as [|c l IH]; cbn [app find column_name].
  - by rewrite Hne.
  - by destruct (same_identifier (column_name c) m).
Qed.

Lemma find_column_spelling (m : string) (t : table) (c : column) :
  find_column m t = Some c →
  same_identifier (column_name c) m = true ∧ c ∈ columns t.
Proof.
  unfold find_column. intros Hfind. apply find_some in Hfind as [Hin Hsame].
  split; [done|]. by apply list_elem_of_In.
Qed.

Lemma apart_cons (s : string * sqltype * value) (specs : list (string * sqltype * value)) :
  apart (s :: specs) →
  apart specs ∧ ∀ s', s' ∈ specs → same_identifier s.1.1 s'.1.1 = false.
Proof.
  intros Hap. split.
  - intros i j a b Ha Hb Hij. apply (Hap (S i) (S j)); [done|done|lia].
  - intros s' (j & Hj)%list_elem_of_lookup_1. by apply (Hap 0%nat (S j)).
Qed.

Lemma column_specs_apart : apart column_specs.
Proof.
  intros i j s s' Hi Hj Hij. unfold column_specs in *.
  destruct i as [|[|[|i]]], j as [|[|[|j]]]; simplify_eq/=; done.
Qed.

Lemma column_specs_names : column_specs.*1.*1 = error_columns.
Proof. reflexivity. Qed.

(** *** What the guarded additions do *)

Lemma adds_shape (found : list string) (specs : list (string * sqltype * value))
    (t : table) :
  let r := adds found specs t in
  table_name r.1.1 = table_name t
  ∧ columns r.1.1
    = (columns t ++ ((λ s : string * sqltype * value, mkColumn s.1.1 s.1.2) <$> r.1.2))%list
  ∧ rows r.1.1 = row_after r.1.2 <$> rows t
  ∧ (∀ sp, sp ∈ r.1.2 → sp ∈ specs ∧ (sp.1.1 ∉ found) ∧ has_column sp.1.1 t = false).
Proof.
  revert t. induction specs as [|spec rest IH]; intros t; cbn [adds].
  { cbv zeta. cbn [fst snd fmap list_fmap]. rewrite app_nil_r.
    split; [done|]. split; [done|]. split.
    - unfold row_after. cbn [foldl]. by rewrite list_fmap_id.
    - by intros sp ?%elem_of_nil. }
  case_bool_decide as Hfound.
  { destruct (IH t) as (Hn & Hc & Hr & Ha). split; [done|]. split; [done|].
    split; [done|]. intros sp Hs. destruct (Ha sp Hs) as (? & ? & ?).
    split; [apply elem_of_cons; by right|done]. }
  destruct (has_column spec.1.1 t) eqn:Hhas.
  { cbv zeta. cbn [fst snd fmap list_fmap]. rewrite app_nil_r.
    split; [done|]. split; [done|]. split.
    - unfold row_after. cbn [foldl]. by rewrite list_fmap_id.
    - by intros sp ?%elem_of_nil. }
  destruct (IH (add_column spec.1.1 spec.1.2 spec.2 t)) as (Hn & Hc & Hr & Ha).
  cbv zeta in *. cbn [fst snd].
  split; [by rewrite Hn|]. split; [|split].
  - rewrite Hc. cbn [add_column columns]. by rewrite <- app_assoc.
  - rewrite Hr. cbn [add_column rows]. rewrite <- list_fmap_compose.
    apply list_fmap_ext. intros _ r _. reflexivity.
  - intros sp [->|Hs]%elem_of_cons.
    + split; [apply elem_of_cons; by left|]. by split.
    + destruct (Ha sp Hs) as (Hin & Hnf & Hh). split; [apply elem_of_cons; by right|].
      split; [done|]. rewrite has_column_add in Hh. by apply orb_false_iff in Hh as [? _].
Qed.

Lemma has_column_mono (m : string) (found : list string)
    (specs : list (string * sqltype * value)) (t : table) :
  has_column m t = true → has_column m (adds found specs t).1.1 = true.
Proof.
  intros Hm. destruct (adds_shape found specs t) as (_ & Hc & _).
  unfold has_column in *. rewrite Hc, existsb_app, Hm. done.
Qed.

(** *** The run on the database and the run on the table *)

Section Runs.

Variable conversion_error : table → bool.

Lemma run_guarded_add (db : database) (t : table) (n : string) (ty : sqltype)
    (d : value) (found : list string) (rest : list (stmt * list migrate_msg))
    (out : list migrate_msg) :
  db !! "episodes" = Some t →
  run conversion_error
    ((if bool_decide (n ∈ found) then [] else [(AddColumn n ty d, [Added n])]) ++ rest)%list
    db out
  = if bool_decide (n ∈ found) then run conversion_error rest db out
    else if has_column n t then (db, (out ++ [MigrationError])%list, false)
    else run conversion_error rest (<["episodes" := add_column n ty d t]> db)
           (out ++ [Added n])%list.
Proof.
  intros Ht. case_bool_decide; [done|].
  cbn [app run]. unfold execute. rewrite Ht. cbn [execute_on].
  by destruct (has_column n t).
Qed.

Lemma run_update (db : database) (t : table) (out : list migrate_msg) :
  db !! "episodes" = Some t →
  run conversion_error [(NormalizeStatus, [Completed])] db out
  = match execute_on conversion_error NormalizeStatus t with
    | Some t' => (<["episodes" := t']> db, (out ++ [Completed])%list, true)
    | None => (db, (out ++ [MigrationError])%list, false)
    end.
Proof.
  intros Ht. cbn [run]. unfold execute. rewrite Ht.
  by destruct (execute_on conversion_error NormalizeStatus t).
Qed.

Lemma run_on_table (qs : list (stmt * list migrate_msg)) (db : database) (t : table)
    (out : list migrate_msg) :
  db !! "episodes" = Some t →
  run conversion_error qs db out
  = (<["episodes" := (run_on conversion_error qs t out).1.1]> db,
     (run_on conversion_error qs t out).1.2,
     (run_on conversion_error qs t out).2).
Proof.
  revert db t out. induction qs as [|[q said] qs IH]; intros db t out Ht.
  { cbn [run run_on fst snd]. by rewrite insert_id. }
  cbn [run run_on]. unfold execute. rewrite Ht.
  destruct (execute_on conversion_error q t) as [t'|].
  - rewrite (IH _ t') by apply lookup_insert_eq. by rewrite insert_insert_eq.
  - cbn [fst snd]. by rewrite insert_id.
Qed.

Lemma run_on_script (t : table) :
  run_on conversion_error (script (found_in t)) t [Migrating]
  = migrate_table conversion_error t.
Proof.
  unfold script, migrate_table, column_specs.
  set (found := found_in t). cbn [adds fst snd].
  destruct (bool_decide ("error_count" ∈ found)),
           (bool_decide ("last_error" ∈ found)),
           (bool_decide ("error_timestamp" ∈ found));
    cbn [app run_on execute_on];
    repeat (match goal with
            | |- context [has_column ?n ?t'] => destruct (has_column n t'); cbn [fst snd]
            end);
    try reflexivity.
Qed.

Lemma migrate_no_table (db : database) :
  db !! "episodes" = None →
  migrate_database conversion_error db = (db, [Migrating; MigrationError], false).
Proof.
  intros Hnone. unfold migrate_database, existing_error_columns. rewrite Hnone.
  unfold script. rewrite !bool_decide_eq_false_2 by (by intros ?%elem_of_nil).
  cbn [app run]. unfold execute. by rewrite Hnone.
Qed.

Lemma migrate_with_table (db : database) (t : table) :
  db !! "episodes" = Some t →
  migrate_database conversion_error db
  = (<["episodes" := (migrate_table conversion_error t).1.1]> db,
     (migrate_table conversion_error t).1.2,
     (migrate_table conversion_error t).2).
Proof.
  intros Ht. unfold migrate_database, existing_error_columns. rewrite Ht.
  fold (found_in t). rewrite (run_on_table _ db t) by done. by rewrite run_on_script.
Qed.

End Runs.

(** *** A second run *)

(** A run of the guarded additions on a table that already went through
    them adds nothing: each column is found, or is there under some
    spelling and stops the run. *)
Lemma adds_again (specs : list (string * sqltype * value)) :
  apart specs →
  ∀ (t : table) (found : list string) (tf : table) (found' : list string),
    (∀ n, n ∈ found → n ∈ found') →
    (∀ m, has_column m (adds found specs t).1.1 = true → has_column m tf = true) →
    (∀ sp, sp ∈ specs → sp.1.1 ∈ found' → sp.1.1 ∈ found ∨ has_column sp.1.1 t = false) →
    ∃ b, adds found' specs tf = (tf, [], b) ∧ (b = true → (adds found specs t).2 = true).
Proof.
  induction specs as [|spec rest IH]; intros Hap t found tf found' Hsub Hcols Hnew.
  { exists true. by split. }
  apply apart_cons in Hap as [Hap Hdist].
  cbn [adds] in *. destruct (decide (spec.1.1 ∈ found')) as [Hf'|Hf'].
  - rewrite (bool_decide_eq_true_2 _ Hf').
    destruct (decide (spec.1.1 ∈ found)) as [Hf|Hf].
    + rewrite (bool_decide_eq_true_2 _ Hf) in *.
      apply (IH Hap t found tf found'); [done|done|].
      intros sp Hsp. apply Hnew, elem_of_cons. by right.
    + rewrite (bool_decide_eq_false_2 _ Hf) in *.
      destruct (Hnew spec) as [?|Hhas]; [apply elem_of_cons; by left|done|done|].
      rewrite Hhas in *. cbn [fst snd] in *.
      apply (IH Hap (add_column spec.1.1 spec.1.2 spec.2 t) found tf found'); [done|done|].
      intros sp Hsp Hsp'. destruct (Hnew sp) as [?|Hhas']; [apply elem_of_cons; by right|done|by left|].
      right. by rewrite has_column_add, Hhas', (Hdist sp Hsp).
  - rewrite (bool_decide_eq_false_2 _ Hf').
    assert (spec.1.1 ∉ found) as Hf by (intros ?; by apply Hf', Hsub).
    rewrite (bool_decide_eq_false_2 _ Hf) in Hcols.
    assert (has_column spec.1.1 tf = true) as ->.
    { apply Hcols. destruct (has_column spec.1.1 t) eqn:Hhas; [done|]. cbn [fst].
      apply has_column_mono. by rewrite has_column_add, same_identifier_refl, orb_true_r. }
    exists false. by split.
Qed.

Lemma normalize_row_idem (c : string) (r : gmap string value) :
  normalize_row c (normalize_row c r) = normalize_row c r.
Proof.
  unfold normalize_row. destruct (r !! c) as [[| |s]|] eqn:Hr; rewrite ?Hr; try done.
  destruct (valid_status s) eqn:Hs.
  - by rewrite Hr, Hs.
  - by rewrite lookup_insert_eq.
Qed.

Lemma normalize_table_idem (c : string) (t : table) :
  normalize_table c (normalize_table c t) = normalize_table c t.
Proof.
  unfold normalize_table; cbn [table_name columns rows]. f_equal.
  rewrite <- list_fmap_compose. apply list_fmap_ext. intros _ r _.
  apply normalize_row_idem.
Qed.

Lemma found_in_columns (t t' : table) :
  table_name t' = table_name t → columns t' = columns t → found_in t' = found_in t.
Proof. intros Hn Hc. unfold found_in. by rewrite Hn, Hc. Qed.

Lemma elem_of_found_in (c : string) (t : table) :
  c ∈ found_in t ↔
  table_name t = "episodes" ∧ c ∈ error_columns ∧ c ∈ column_name <$> columns t.
Proof.
  unfold found_in. case_bool_decide as Hn.
  - rewrite list_elem_of_filter. tauto.
  - split; [by intros ?%elem_of_nil|tauto].
Qed.

Section Again.

Variable conversion_error : table → bool.

(** The status update leaves the name and the columns of the table. *)
Lemma execute_status_shape (t t' : table) :
  execute_on conversion_error NormalizeStatus t = Some t' →
  table_name t' = table_name t ∧ columns t' = columns t
  ∧ length (rows t') = length (rows t).
Proof.
  cbn [execute_on]. destruct (find_column "status" t) as [c|]; [|done].
  destruct (column_type c); try (destruct (conversion_error t); [done|]);
    intros [= <-]; try done.
  cbn [normalize_table table_name columns rows]. by rewrite length_fmap.
Qed.

Lemma execute_status_again (t t' : table) :
  execute_on conversion_error NormalizeStatus t = Some t' →
  execute_on conversion_error NormalizeStatus t' = Some t'.
Proof.
  cbn [execute_on]. destruct (find_column "status" t) as [c|] eqn:Hc; [|done].
  destruct (column_type c) eqn:Hty.
  - destruct (conversion_error t) eqn:Hce; [done|]. intros [= <-]. by rewrite Hc, Hty, Hce.
  - intros [= <-].
    change (find_column "status" (normalize_table (column_name c) t))
      with (find_column "status" t).
    by rewrite Hc, Hty, normalize_table_idem.
  - destruct (conversion_error t) eqn:Hce; [done|]. intros [= <-]. by rewrite Hc, Hty, Hce.
Qed.

(** The table that the run leaves has the name of the table it found and
    the columns that the additions left. *)
Lemma migrate_table_shape (t : table) :
  let a := adds (found_in t) column_specs t in
  let tf := (migrate_table conversion_error t).1.1 in
  table_name tf = table_name t
  ∧ columns tf = columns a.1.1
  ∧ length (rows tf) = length (rows t)
  ∧ (a.2 = false → tf = a.1.1).
Proof.
  cbv zeta. destruct (adds_shape (found_in t) column_specs t) as (Hn & Hc & Hr & _).
  cbv zeta in *. unfold migrate_table.
  assert (length (rows (adds (found_in t) column_specs t).1.1) = length (rows t)) as Hlen
    by (by rewrite Hr, length_fmap).
  destruct (adds (found_in t) column_specs t).2; [|done].
  destruct (execute_on _ _ _) as [t'|] eqn:Hup; cbn [fst]; [|done].
  apply execute_status_shape in Hup as (Hn' & Hc' & Hr'). split; [congruence|].
  split; [done|]. split; [congruence|done].
Qed.

Lemma migrate_table_again (t : table) :
  let tf := (migrate_table conversion_error t).1.1 in
  (migrate_table conversion_error tf).1.1 = tf
  ∧ ∀ c, Added c ∉ (migrate_table conversion_error tf).1.2.
Proof.
  cbv zeta.
  destruct (migrate_table_shape t) as (Hn & Hc & _ & Hfail).
  destruct (adds_shape (found_in t) column_specs t) as (Hn0 & Hc0 & _ & Hadded).
  cbv zeta in *.
  set (a := adds (found_in t) column_specs t) in *.
  set (tf := (migrate_table conversion_error t).1.1) in *.
  destruct (adds_again column_specs column_specs_apart t (found_in t) tf (found_in tf))
    as (b & Hagain & Hb).
  - intros n (Hname & Herr & Hin)%elem_of_found_in. apply elem_of_found_in.
    split; [congruence|]. split; [done|].
    rewrite Hc, Hc0, fmap_app. apply elem_of_app. by left.
  - intros m. fold a. unfold has_column. by rewrite Hc.
  - intros sp Hsp (Hname & Herr & Hin)%elem_of_found_in.
    rewrite Hc, Hc0, fmap_app in Hin. apply elem_of_app in Hin as [Hin|Hin].
    + left. apply elem_of_found_in. split; [congruence|done].
    + right. rewrite <- list_fmap_compose in Hin.
      apply list_elem_of_fmap in Hin as (sp' & Heq & Hsp'). cbn in Heq.
      rewrite Heq. by apply Hadded.
  - assert (∀ e, (∀ c, e ≠ Added c) →
                 ∀ c, Added c ∉ ([Migrating] ++ [] ++ [e])%list) as Hout.
    { intros e He c Hin. cbn in Hin. rewrite !elem_of_cons, elem_of_nil in Hin.
      destruct Hin as [|[Hin|[]]]; [done|]. by destruct (He c). }
    unfold migrate_table. rewrite Hagain. cbn [fst snd fmap list_fmap].
    destruct b.
    + specialize (Hb eq_refl). fold a in Hb.
      assert (execute_on conversion_error NormalizeStatus tf = None
              ∨ execute_on conversion_error NormalizeStatus tf = Some tf) as [Hup|Hup].
      { unfold tf, migrate_table. fold a. rewrite Hb.
        destruct (execute_on conversion_error NormalizeStatus a.1.1) as [t'|] eqn:Hup;
          cbn [fst].
        - right. by apply execute_status_again in Hup.
        - by left. }
      * rewrite Hup. cbn [fst snd]. split; [done|].
        by apply Hout.
      * rewrite Hup. cbn [fst snd]. split; [done|].
        by apply Hout.
    + cbn [fst snd]. split; [done|].
      by apply Hout.
Qed.

Lemma elem_of_added_out (t : table) (c : string) :
  Added c ∈ (migrate_table conversion_error t).1.2 ↔
  c ∈ (adds (found_in t) column_specs t).1.2.*1.*1.
Proof.
  assert (∀ (l : list (string * sqltype * value)) e, (∀ c', e ≠ Added c') →
            (Added c ∈ (([Migrating] ++ ((λ sp : string * sqltype * value, Added sp.1.1) <$> l))
                        ++ [e])%list ↔ c ∈ l.*1.*1)) as Hout.
  { intros l e He. rewrite !elem_of_app, !list_elem_of_singleton.
    rewrite <- list_fmap_compose, !list_elem_of_fmap. split.
    - intros [[?|(sp & [= ->] & Hsp)]|?]; [done| |by destruct (He c)]. by exists sp.
    - intros (sp & -> & Hsp). left. right. by exists sp. }
  unfold migrate_table. destruct (adds _ _ _).2.
  - destruct (execute_on _ _ _); cbn [fst snd]; by apply Hout.
  - cbn [fst snd]. by apply Hout.
Qed.

End Again.

(** *** The status column and the cells *)

Lemma find_status_adds (found : list string) (specs : list (string * sqltype * value))
    (t : table) :
  (∀ sp, sp ∈ specs → same_identifier sp.1.1 "status" = false) →
  find_column "status" (adds found specs t).1.1 = find_column "status" t.
Proof.
  revert t. induction specs as [|spec rest IH]; intros t Hne; [done|].
  assert (∀ sp, sp ∈ rest → same_identifier sp.1.1 "status" = false) as Hne'
    by (intros sp Hsp; apply Hne, elem_of_cons; by right).
  cbn [adds]. case_bool_decide; [by apply IH|].
  destruct (has_column spec.1.1 t); [done|]. cbn [fst].
  rewrite IH by done. apply find_column_add, Hne, elem_of_cons. by left.
Qed.

Lemma column_specs_not_status (sp : string * sqltype * value) :
  sp ∈ column_specs → same_identifier sp.1.1 "status" = false.
Proof.
  unfold column_specs. rewrite !elem_of_cons, elem_of_nil.
  by intros [->|[->|[->|[]]]].
Qed.

Lemma row_after_cons (sp : string * sqltype * value)
    (added : list (string * sqltype * value)) (r : gmap string value) :
  row_after (sp :: added) r = row_after added (<[sp.1.1 := sp.2]> r).
Proof. done. Qed.

Lemma row_after_other (added : list (string * sqltype * value))
    (r : gmap string value) (k : string) :
  (∀ sp, sp ∈ added → sp.1.1 ≠ k) → row_after added r !! k = r !! k.
Proof.
  revert r. induction added as [|sp added IH]; intros r Hne; [done|].
  rewrite row_after_cons, IH by (intros sp' Hsp'; apply Hne, elem_of_cons; by right).
  apply lookup_insert_ne, Hne, elem_of_cons. by left.
Qed.

Lemma same_identifier_ne (a b c : string) :
  same_identifier a c = true → same_identifier b c = false → a ≠ b.
Proof. intros Ha Hb ->. congruence. Qed.

Lemma normalize_row_other (c k : string) (r : gmap string value) :
  k ≠ c → normalize_row c r !! k = r !! k.
Proof.
  intros Hk. unfold normalize_row.
  destruct (r !! c) as [[| |s]|]; try done.
  destruct (valid_status s); [done|]. by rewrite lookup_insert_ne.
Qed.


(** The additions go through on a table spelled [episodes] that holds no
    error column under another spelling: the columns added are those that
    the table lacks. *)
Lemma adds_plain (found : list string) (specs : list (string * sqltype * value)) :
  apart specs →
  ∀ t : table,
    (∀ sp, sp ∈ specs → sp.1.1 ∈ found ↔ has_column sp.1.1 t = true) →
    (adds found specs t).1.2
    = filter (λ sp : string * sqltype * value, sp.1.1 ∉ found) specs
    ∧ (adds found specs t).2 = true.
Proof.
  induction specs as [|spec rest IH]; intros Hap t Hiff; [done|].
  apply apart_cons in Hap as [Hap Hdist]. cbn [adds]. rewrite filter_cons.
  destruct (decide (spec.1.1 ∈ found)) as [Hf|Hf].
  - rewrite (bool_decide_eq_true_2 _ Hf). rewrite decide_False by (intros Hn; by apply Hn).
    apply IH; [done|]. intros sp Hsp. apply Hiff, elem_of_cons. by right.
  - rewrite (bool_decide_eq_false_2 _ Hf). rewrite decide_True by done.
    destruct (has_column spec.1.1 t) eqn:Hhas.
    { exfalso. apply Hf, Hiff; [apply elem_of_cons; by left|done]. }
    cbn [fst snd].
    destruct (IH Hap (add_column spec.1.1 spec.1.2 spec.2 t)) as [-> ->]; [|done].
    intros sp Hsp. rewrite has_column_add, (Hdist sp Hsp), orb_false_r.
    apply Hiff, elem_of_cons. by right.
Qed.

Lemma found_in_plain (t : table) (sp : string * sqltype * value) :
  table_name t = "episodes" → plain_error_columns t → sp ∈ column_specs →
  sp.1.1 ∈ found_in t ↔ has_column sp.1.1 t = true.
Proof.
  intros Hn Hplain Hsp.
  assert (sp.1.1 ∈ error_columns) as Herr.
  { rewrite <- column_specs_names. by apply list_elem_of_fmap_2, list_elem_of_fmap_2. }
  split.
  - intros (_ & _ & Hin)%elem_of_found_in. by apply has_column_exact.
  - intros Hhas. apply elem_of_found_in. split; [done|]. split; [done|].
    by apply Hplain.
Qed.

Section Cells.

Variable conversion_error : table → bool.

(** The rows after the run: the defaults of the columns added, then the
    status update when the run got to it on a status column of text type. *)
Lemma migrate_table_rows (t : table) :
  rows (migrate_table conversion_error t).1.1
  = (λ r, (if (migrate_table conversion_error t).2
           then match find_column "status" t with
                | Some c => match column_type c with
                            | TVarchar => normalize_row (column_name c)
                            | _ => λ r, r
                            end
                | None => λ r, r
                end
           else λ r, r)
            (row_after (adds (found_in t) column_specs t).1.2 r))
    <$> rows t.
Proof.
  destruct (adds_shape (found_in t) column_specs t) as (_ & _ & Hr & _).
  cbv zeta in Hr. unfold migrate_table.
  pose proof (find_status_adds (found_in t) column_specs t column_specs_not_status)
    as Hfind.
  destruct (adds (found_in t) column_specs t).2; [|by cbn [fst snd]].
  cbn [execute_on]. rewrite Hfind.
  destruct (find_column "status" t) as [c|]; [|by cbn [fst snd]].
  destruct (column_type c);
    try (destruct (conversion_error _); by cbn [fst snd]).
  cbn [fst snd normalize_table rows]. rewrite Hr, <- list_fmap_compose.
  by apply list_fmap_ext.
Qed.


Lemma migrate_table_true (t : table) :
  (migrate_table conversion_error t).2 = true →
  ∃ c, find_column "status" t = Some c.
Proof.
  unfold migrate_table.
  destruct (adds (found_in t) column_specs t).2; [|done].
  cbn [execute_on]. rewrite (find_status_adds _ _ _ column_specs_not_status).
  destruct (find_column "status" t) as [c|]; [by exists c|done].
Qed.

Lemma migrate_table_out (t : table) :
  ∃ added,
    (migrate_table conversion_error t).1.2
    = (([Migrating] ++ (Added <$> added))
       ++ [if (migrate_table conversion_error t).2 then Completed else MigrationError])%list.
Proof.
  unfold migrate_table.
  exists ((adds (found_in t) column_specs t).1.2.*1.*1).
  rewrite <- !list_fmap_compose.
  destruct (adds _ _ _).2; [|done]. by destruct (execute_on _ _ _).
Qed.

End Cells.

(** C10. The migration is idempotent: whatever the database and whatever
    came of the first run, a second run of [migrate_database] leaves the
    database of the first run as it is, schema and rows, and adds no column;
    and in the first run a column is added only if the table did not have
    it, under any spelling, and is in the table afterwards. *)
Theorem migrate_idempotent (conversion_error : table → bool) (db : database) :
  let first := migrate_database conversion_error db in
  let second := migrate_database conversion_error first.1.1 in
  second.1.1 = first.1.1
  ∧ episode_columns second.1.1 = episode_columns first.1.1
  ∧ (∀ c, Added c ∉ second.1.2)
  ∧ (∀ c, Added c ∈ first.1.2 →
          c ∈ error_columns
          ∧ (∃ t, db !! "episodes" = Some t ∧ has_column c t = false)
          ∧ c ∈ column_name <$> episode_columns first.1.1).
Proof.
  cbv zeta. destruct (db !! "episodes") as [t|] eqn:Ht.
  - rewrite (migrate_with_table conversion_error db t Ht). cbn [fst snd].
    set (tf := (migrate_table conversion_error t).1.1).
    rewrite (migrate_with_table conversion_error _ tf) by apply lookup_insert_eq.
    cbn [fst snd].
    destruct (migrate_table_again conversion_error t) as [Htable Hnone]. fold tf in Htable, Hnone.
    rewrite Htable, insert_insert_eq.
    split; [done|]. split; [done|]. split; [done|].
    intros c Hc%elem_of_added_out.
    apply list_elem_of_fmap in Hc as (n & -> & Hn).
    apply list_elem_of_fmap in Hn as (sp & -> & Hsp).
    destruct (adds_shape (found_in t) column_specs t) as (_ & Hcols & _ & Hadded).
    cbv zeta in *. destruct (Hadded sp Hsp) as (Hspec & _ & Hhas).
    split; [|split].
    + rewrite <- column_specs_names. by apply list_elem_of_fmap_2, list_elem_of_fmap_2.
    + by exists t.
    + unfold episode_columns. rewrite lookup_insert_eq.
      destruct (migrate_table_shape conversion_error t) as (_ & Hcf & _).
      cbv zeta in Hcf. fold tf in Hcf. rewrite Hcf, Hcols, fmap_app. apply elem_of_app. right.
      rewrite <- list_fmap_compose. by apply (list_elem_of_fmap_2' _ _ sp).
  - rewrite (migrate_no_table conversion_error db Ht). cbn [fst snd].
    rewrite (migrate_no_table conversion_error db Ht). cbn [fst snd].
    split; [done|]. split; [done|]. split.
    + intros c. rewrite !elem_of_cons, elem_of_nil. by intros [|[|]].
    + intros c. rewrite !elem_of_cons, elem_of_nil. by intros [|[|]].
Qed.

End MigrateFacts.

(** ** The status-enum invariant *)









Lemma migrate_old_database_example :
  let r := Migrate.migrate_database Migrate.raise_on_rows Migrate.old_database in
  Migrate.column_name <$> Migrate.episode_columns r.1.1
  = ["id"; "title"; "status"; "error_count"; "last_error"; "error_timestamp"]
  ∧ (λ r : gmap string Migrate.value, r !! "status") <$> Migrate.episode_rows r.1.1
    = [Some (Migrate.VText "transcribed"); Some (Migrate.VText "downloaded")]
  ∧ (λ r : gmap string Migrate.value, r !! "error_count") <$> Migrate.episode_rows r.1.1
    = [Some (Migrate.VInt 0); Some (Migrate.VInt 0)]
  ∧ r.1.2 = [Migrate.Migrating; Migrate.Added "error_count"; Migrate.Added "last_error";
             Migrate.Added "error_timestamp"; Migrate.Completed]
  ∧ r.2 = true
  ∧ Migrate.migrate_database Migrate.raise_on_rows r.1.1
    = (r.1.1, [Migrate.Migrating; Migrate.Completed], true).
Proof. by vm_compute. Qed.

(* ===================================================================== *)
(** * Part VIII: further properties *)
(* ===================================================================== *)

(** ** More on [retry] *)

Lemma db_eq (db db' : P3Database) :
  episodes db = episodes db' → notes db = notes db' → db = db'.
Proof. destruct db, db'; simpl; by intros -> ->. Qed.

Lemma retry_single_store (id : Z) (reset : bool) (db : P3Database) :
  episodes (say (MsgReadyForRetry id)
              (on_db (Db.update_episode_status id "downloaded")
                 (if reset
                  then say (MsgResetErrors id) (on_db (Db.reset_episode_errors id) (db, []))
                  else (db, [])))).1
  = alter (rewound reset) id (episodes db).
Proof.
  unfold say, on_db. destruct reset; cbn [fst snd]; rewrite episodes_rewind; [|done].
  unfold Db.reset_episode_errors, with_episodes, rewound; cbn [episodes].
  by rewrite alter_alter_eq.
Qed.

Lemma retry_single_notes (id : Z) (reset : bool) (db : P3Database) :
  notes (say (MsgReadyForRetry id)
           (on_db (Db.update_episode_status id "downloaded")
              (if reset
               then say (MsgResetErrors id) (on_db (Db.reset_episode_errors id) (db, []))
               else (db, [])))).1
  = notes db.
Proof. unfold say, on_db. destruct reset; cbn [fst snd]; by rewrite notes_rewind. Qed.

(** X1. With an episode id given, [retry] touches that episode only: every
    other episode and the notes are as before, and the flag [--all] makes no
    difference. *)
Theorem retry_single_frame
    (episode_id : option Z) (all reset_errors : bool) (db : P3Database) (id : Z) :
  truthy_int episode_id = Some id →
  (∀ k, k ≠ id →
        episodes (retry episode_id all reset_errors db).1 !! k = episodes db !! k)
  ∧ notes (retry episode_id all reset_errors db).1 = notes db
  ∧ retry episode_id all reset_errors db = retry episode_id (negb all) reset_errors db.
Proof.
  intros Hid. unfold retry. rewrite Hid.
  destruct (Db.get_episode_by_id id db) as [e|]; [|done].
  cbv zeta. rewrite retry_single_store, retry_single_notes.
  split; [|done]. intros k Hk. by rewrite lookup_alter_ne.
Qed.

Lemma retry_single_frame_witness :
  (∀ k, k ≠ 2 → episodes (retry (Some 2) true true sample_db).1 !! k
                = episodes sample_db !! k)
  ∧ notes (retry (Some 2) true true sample_db).1 = notes sample_db
  ∧ retry (Some 2) true true sample_db = retry (Some 2) (negb true) true sample_db.
Proof. apply (retry_single_frame (Some 2) true true sample_db 2). reflexivity. Defined.

(** X2. An id that names no episode: [retry] and [mark_processed] print
    that the episode was not found and leave the store as it is, whatever
    the other options. *)
Theorem unknown_episode_untouched (lower : string → string)
    (episode_id : option Z) (all reset_errors : bool) (podcast reason : option string)
    (db : P3Database) (id : Z) :
  truthy_int episode_id = Some id →
  Db.get_episode_by_id id db = None →
  retry episode_id all reset_errors db = (db, [MsgEpisodeNotFound id])
  ∧ mark_processed lower episode_id podcast reason db = (db, [MsgEpisodeNotFound id]).
Proof.
  intros Hid Hget. unfold retry, mark_processed. by rewrite Hid, Hget.
Qed.

Lemma unknown_episode_untouched_witness :
  retry (Some 9) true true sample_db = (sample_db, [MsgEpisodeNotFound 9])
  ∧ mark_processed PyStr.lower (Some 9) (Some "Night Radio") (Some "gone") sample_db
    = (sample_db, [MsgEpisodeNotFound 9]).
Proof.
  apply (unknown_episode_untouched PyStr.lower (Some 9) true true (Some "Night Radio") (Some "gone")
           sample_db 9); reflexivity.
Defined.

(** The store after [retry --all], episode by episode. *)
Lemma retry_all_lookup (episode_id : option Z) (reset : bool) (db : P3Database) (k : Z) :
  truthy_int episode_id = None →
  episodes (retry episode_id true reset db).1 !! k
  = (λ e, if errored e then rewound reset e else e) <$> episodes db !! k.
Proof.
  intros Hid. unfold retry. rewrite Hid. cbv zeta.
  destruct (Db.get_error_episodes db) as [|r l] eqn:Herr.
  - cbn [fst]. destruct (episodes db !! k) as [e|] eqn:He; simpl; [|done].
    unfold errored. case_bool_decide as Hpos; [|done].
    assert (k ∈ (Db.get_error_episodes db).*1) as Hin
      by (apply elem_of_error_ids; eauto).
    rewrite Herr in Hin. by apply elem_of_nil in Hin.
  - rewrite <- Herr. unfold say; cbn [fst].
    rewrite (loop_lookup (rewound reset) (retry_one reset))
      by (apply rewound_idem || apply retry_one_episodes).
    cbn [fst]. destruct (episodes db !! k) as [e|] eqn:He; simpl; [|done].
    f_equal. unfold errored.
    destruct (decide (0 < error_count e)) as [Hpos|Hpos].
    + rewrite bool_decide_eq_true_2 by (apply elem_of_error_ids; eauto).
      by rewrite bool_decide_eq_true_2.
    + rewrite bool_decide_eq_false_2.
      { by rewrite bool_decide_eq_false_2. }
      intros (e' & He' & Hpos')%elem_of_error_ids. congruence.
Qed.

Lemma retry_all_notes (episode_id : option Z) (reset : bool) (db : P3Database) :
  truthy_int episode_id = None →
  notes (retry episode_id true reset db).1 = notes db.
Proof.
  intros Hid. unfold retry. rewrite Hid. cbv zeta.
  destruct (Db.get_error_episodes db) as [|r l]; [done|].
  unfold say; cbn [fst].
  apply (for_each_preserves (λ st, notes st.1 = notes db)); [|done].
  intros x st Hst. by rewrite retry_one_notes.
Qed.

Lemma no_error_episodes (db : P3Database) :
  (∀ k e, episodes db !! k = Some e → error_count e ≤ 0) →
  Db.get_error_episodes db = [].
Proof.
  intros Hnone. destruct (Db.get_error_episodes db) as [|[k e] l] eqn:Herr; [done|].
  assert ((k, e) ∈ Db.get_error_episodes db) as Hin
    by (rewrite Herr; apply elem_of_cons; by left).
  apply elem_of_error_episodes in Hin as [He Hpos].
  specialize (Hnone k e He). lia.
Qed.

(** X3. After [retry --all --reset-errors] nothing is left to report:
    [errors] finds no episode with errors, and a second [retry --all] finds
    no failed episode and leaves the store as it is. *)
Theorem retry_all_reset_clears_errors
    (episode_id : option Z) (db : P3Database) (show_all reset_again : bool) :
  truthy_int episode_id = None →
  let db' := (retry episode_id true true db).1 in
  errors show_all db' = NoErrorsFound
  ∧ retry episode_id true reset_again db' = (db', [MsgNoFailedEpisodes]).
Proof.
  intros Hid db'.
  assert (Db.get_error_episodes db' = []) as Hnil.
  { apply no_error_episodes. intros k e'. unfold db'.
    rewrite (retry_all_lookup episode_id true db k Hid).
    destruct (episodes db !! k) as [e|]; simpl; [|done].
    intros [= <-]. unfold errored. case_bool_decide; simpl; lia. }
  split.
  - unfold errors. by rewrite Hnil.
  - unfold retry. by rewrite Hid, Hnil.
Qed.

Lemma retry_all_reset_clears_errors_witness :
  let db' := (retry None true true sample_db).1 in
  errors true db' = NoErrorsFound
  ∧ retry None true false db' = (db', [MsgNoFailedEpisodes]).
Proof.
  apply (retry_all_reset_clears_errors None sample_db true false). reflexivity.
Defined.

(** ** More on [errors] *)

(** Every line of the table comes from an episode of the store with errors. *)
Lemma listed_lines_errors (show_all : bool) (db : P3Database) (ln : error_line) :
  ln ∈ listed_lines (errors show_all db) →
  ∃ k e, episodes db !! k = Some e ∧ 0 < error_count e
         ∧ line_id ln = k ∧ line_status ln = status e ∧ line_errors ln = error_count e.
Proof.
  unfold errors. destruct (Db.get_error_episodes db) as [|r l] eqn:Herr; cbn [listed_lines].
  { by intros ?%elem_of_nil. }
  rewrite <- Herr. intros ([k e] & -> & Hin)%list_elem_of_fmap.
  apply elem_of_error_episodes in Hin as [He Hpos]. by exists k, e.
Qed.

(** X4. [retry --all] without [--reset-errors] keeps every retried episode
    in the error listing: [errors] lists the same ids after it as before,
    each now with status 'downloaded' and its error count. *)
Theorem retry_all_keeps_listing
    (episode_id : option Z) (db : P3Database) (show_all : bool) :
  truthy_int episode_id = None →
  let db' := (retry episode_id true false db).1 in
  (∀ id, id ∈ listed_ids (errors show_all db') ↔ id ∈ listed_ids (errors show_all db))
  ∧ (∀ ln, ln ∈ listed_lines (errors show_all db') →
           line_status ln = "downloaded"
           ∧ ∃ e, episodes db !! line_id ln = Some e ∧ line_errors ln = error_count e).
Proof.
  intros Hid db'.
  assert (∀ k e', episodes db' !! k = Some e' → 0 < error_count e' →
                  ∃ e, episodes db !! k = Some e ∧ 0 < error_count e
                       ∧ e' = rewound false e) as Hback.
  { intros k e'. unfold db'. rewrite (retry_all_lookup episode_id false db k Hid).
    destruct (episodes db !! k) as [e|]; simpl; [|done].
    intros [= <-]. unfold errored. case_bool_decide as Hpos; simpl.
    - intros _. by exists e.
    - intros Hpos'. lia. }
  split.
  - intros id. rewrite !listed_ids_errors. split.
    + intros (e' & He' & Hpos). destruct (Hback id e' He' Hpos) as (e & He & Hpos' & _).
      by exists e.
    + intros (e & He & Hpos). exists (rewound false e). split; [|done].
      unfold db'. rewrite (retry_all_lookup episode_id false db id Hid), He. simpl.
      unfold errored. by rewrite bool_decide_eq_true_2.
  - intros ln (k & e' & He' & Hpos & Hk & Hst & Hcount)%listed_lines_errors.
    destruct (Hback k e' He' Hpos) as (e & He & _ & ->).
    split; [by rewrite Hst|]. exists e. by rewrite Hk, Hcount.
Qed.

Lemma retry_all_keeps_listing_witness :
  let db' := (retry None true false sample_db).1 in
  (∀ id, id ∈ listed_ids (errors true db') ↔ id ∈ listed_ids (errors true sample_db))
  ∧ (∀ ln, ln ∈ listed_lines (errors true db') →
           line_status ln = "downloaded"
           ∧ ∃ e, episodes sample_db !! line_id ln = Some e
                  ∧ line_errors ln = error_count e).
Proof. apply (retry_all_keeps_listing None sample_db true). reflexivity. Defined.

(** X5. [retry] is idempotent on the store: run a second time with the same
    options, it leaves the store that the first run left. *)
Theorem retry_idempotent
    (episode_id : option Z) (all reset_errors : bool) (db : P3Database) :
  (retry episode_id all reset_errors (retry episode_id all reset_errors db).1).1
  = (retry episode_id all reset_errors db).1.
Proof.
  destruct (truthy_int episode_id) as [id|] eqn:Hid.
  - destruct (Db.get_episode_by_id id db) as [e|] eqn:Hget.
    + assert (episodes (retry episode_id all reset_errors db).1
              = alter (rewound reset_errors) id (episodes db)) as Heps.
      { unfold retry. rewrite Hid, Hget. apply retry_single_store. }
      assert (notes (retry episode_id all reset_errors db).1 = notes db) as Hnotes.
      { unfold retry. rewrite Hid, Hget. apply retry_single_notes. }
      set (db1 := (retry episode_id all reset_errors db).1) in *.
      assert (Db.get_episode_by_id id db1 = Some (rewound reset_errors e)) as Hget1.
      { unfold Db.get_episode_by_id in *. by rewrite Heps, lookup_alter_eq, Hget. }
      apply db_eq.
      * unfold retry. rewrite Hid, Hget1. cbv zeta.
        rewrite retry_single_store, Heps, alter_alter_eq.
        apply alter_ext. intros x _. simpl. apply rewound_idem.
      * unfold retry. rewrite Hid, Hget1. cbv zeta.
        by rewrite retry_single_notes.
    + assert (retry episode_id all reset_errors db = (db, [MsgEpisodeNotFound id])) as ->
        by (unfold retry; by rewrite Hid, Hget).
      cbn [fst]. unfold retry. by rewrite Hid, Hget.
  - destruct all.
    + apply db_eq.
      * apply map_eq. intros k. rewrite !retry_all_lookup by done.
        destruct (episodes db !! k) as [e|]; simpl; [|done]. f_equal.
        unfold errored. destruct (decide (0 < error_count e)) as [Hpos|Hpos].
        -- rewrite (bool_decide_eq_true_2 (0 < error_count e)) by done.
           destruct (bool_decide _); [apply rewound_idem|done].
        -- rewrite (bool_decide_eq_false_2 (0 < error_count e)) by done.
           by rewrite (bool_decide_eq_false_2 (0 < error_count e)).
      * by rewrite !retry_all_notes.
    + unfold retry. by rewrite Hid.
Qed.

(** ** Strings *)

Module PyStrFacts.

Lemma append_String (c : ascii) (a b : string) :
  String c a +:+ b = String c (a +:+ b).
Proof. done. Qed.

Lemma append_empty (b : string) : "" +:+ b = b.
Proof. done. Qed.

Lemma length_append (a b : string) :
  String.length (a +:+ b) = (String.length a + String.length b)%nat.
Proof. induction a as [|c a IH]; simpl; [done|]. by rewrite IH. Qed.

Lemma length_substring (n : nat) (s : string) :
  String.length (String.substring 0 n s) = Nat.min n (String.length s).
Proof.
  revert n. induction s as [|c s IH]; intros [|n]; simpl; try done.
  by rewrite IH.
Qed.

Lemma length_take (n : nat) (s : string) :
  (String.length (PyStr.take n s) ≤ n)%nat.
Proof. unfold PyStr.take. rewrite length_substring. lia. Qed.

Lemma take_short (n : nat) (s : string) :
  (String.length s ≤ n)%nat → PyStr.take n s = s.
Proof.
  unfold PyStr.take. revert n. induction s as [|c s IH]; intros [|n]; simpl; try done.
  - lia.
  - intros Hn. rewrite IH; [done|lia].
Qed.

End PyStrFacts.

(** ** More on [mark_processed] *)

Lemma elem_of_podcast_ids (lower : string → string) (p : string)
    (db : P3Database) (k : Z) :
  k ∈ (filter (λ e : row, matches_podcast lower p e = true) (Db.get_error_episodes db)).*1 ↔
  ∃ e, episodes db !! k = Some e ∧ 0 < error_count e ∧ matches_podcast lower p (k, e) = true.
Proof.
  split; [apply elem_of_podcast_episodes|].
  intros (e & He & Hpos & Hmatch). apply list_elem_of_fmap. exists (k, e).
  split; [done|]. apply list_elem_of_filter. split; [done|].
  by apply elem_of_error_episodes.
Qed.

(** X6. [mark_processed --podcast] (no episode id given) marks exactly the
    episodes that have errors and whose podcast title matches the name, that
    is, contains it once [str.lower] is applied to both: these get the
    status 'processed', every other episode is as before. *)
Theorem mark_by_podcast_selection (lower : string → string)
    (episode_id : option Z) (podcast reason : option string)
    (db : P3Database) (p : string) (k : Z) :
  truthy_int episode_id = None →
  truthy_str podcast = Some p →
  episodes (mark_processed lower episode_id podcast reason db).1 !! k
  = (λ e, if errored e && matches_podcast lower p (k, e)
          then with_status "processed" e else e) <$> episodes db !! k.
Proof.
  intros Hid Hp. unfold mark_processed. rewrite Hid, Hp. cbv zeta.
  assert (∀ e, episodes db !! k = Some e →
               bool_decide (k ∈ (filter (λ e : row, matches_podcast lower p e = true)
                                   (Db.get_error_episodes db)).*1)
               = errored e && matches_podcast lower p (k, e)) as Hsel.
  { intros e He. unfold errored.
    destruct (decide (0 < error_count e)) as [Hpos|Hpos];
      [destruct (matches_podcast lower p (k, e)) eqn:Hmatch|].
    - rewrite (bool_decide_eq_true_2 (0 < _)) by done.
      apply bool_decide_eq_true_2, elem_of_podcast_ids. by exists e.
    - rewrite (bool_decide_eq_true_2 (0 < _)) by done.
      apply bool_decide_eq_false_2. intros (e' & He' & _ & Hm)%elem_of_podcast_ids.
      congruence.
    - rewrite (bool_decide_eq_false_2 (0 < _)) by done.
      apply bool_decide_eq_false_2. intros (e' & He' & Hpos' & _)%elem_of_podcast_ids.
      assert (e' = e) as -> by congruence. done. }
  destruct (filter _ (Db.get_error_episodes db)) as [|r l] eqn:Hfilter.
  - cbn [fst]. destruct (episodes db !! k) as [e|] eqn:He; [|done].
    cbn [fmap option_fmap option_map]. rewrite <- (Hsel e eq_refl).
    by rewrite bool_decide_eq_false_2 by apply not_elem_of_nil.
  - unfold say; cbn [fst snd].
    rewrite (loop_lookup (with_status "processed") (mark_one reason))
      by (done || apply mark_one_episodes).
    cbn [fst]. destruct (episodes db !! k) as [e|] eqn:He; [|done].
    cbn [fmap option_fmap option_map]. rewrite <- (Hsel e eq_refl).
    by destruct (bool_decide _).
Qed.

Lemma mark_by_podcast_selection_witness :
  episodes (mark_processed PyStr.lower None (Some "NIGHT") None sample_db).1 !! 2
  = (λ e, if errored e && matches_podcast PyStr.lower "NIGHT" (2, e)
          then with_status "processed" e else e) <$> episodes sample_db !! 2.
Proof.
  apply (mark_by_podcast_selection PyStr.lower None (Some "NIGHT") None sample_db "NIGHT" 2);
    reflexivity.
Defined.

(** ** The table of [errors] *)

(** X8. The cells of the table that [errors] prints are bounded: the podcast
    title takes at most 30 characters and the episode title at most 40;
    with [--show-all], and only then, a line carries the last error in at
    most 50 characters and the timestamp in at most 19. *)
Theorem errors_line_bounds (show_all : bool) (db : P3Database) (ln : error_line) :
  ln ∈ listed_lines (errors show_all db) →
  (String.length (line_podcast ln) ≤ 30)%nat
  ∧ (String.length (line_episode ln) ≤ 40)%nat
  ∧ match line_details ln with
    | Some (message, timestamp) =>
        show_all = true
        ∧ (String.length message ≤ 50)%nat
        ∧ (String.length timestamp ≤ 19)%nat
    | None => show_all = false
    end.
Proof.
  unfold errors. destruct (Db.get_error_episodes db) as [|r l]; cbn [listed_lines].
  { by intros ?%elem_of_nil. }
  intros (ep & -> & _)%list_elem_of_fmap. cbn [line_podcast line_episode line_details].
  split; [apply PyStrFacts.length_take|]. split; [apply PyStrFacts.length_take|].
  destruct show_all; [|done]. split; [done|]. split; [|apply PyStrFacts.length_take].
  destruct (Nat.ltb 50 (String.length (or_na (last_error ep.2)))) eqn:Hlong.
  - rewrite PyStrFacts.length_append. pose proof (PyStrFacts.length_take 47
      (or_na (last_error ep.2))). simpl. lia.
  - apply Nat.ltb_ge in Hlong. lia.
Qed.

Lemma errors_line_bounds_witness :
  let ln := {| line_id := 2; line_podcast := "Night Radio"; line_episode := "Static";
               line_status := "transcribed"; line_errors := 3;
               line_details := Some ("timeout", "2024-05-01 10:00:00") |} in
  ln ∈ listed_lines (errors true sample_db)
  ∧ (String.length (line_podcast ln) ≤ 30)%nat
  ∧ (String.length (line_episode ln) ≤ 40)%nat
  ∧ match line_details ln with
    | Some (message, timestamp) =>
        true = true
        ∧ (String.length message ≤ 50)%nat
        ∧ (String.length timestamp ≤ 19)%nat
    | None => true = false
    end.
Proof.
  assert ({| line_id := 2; line_podcast := "Night Radio"; line_episode := "Static";
             line_status := "transcribed"; line_errors := 3;
             line_details := Some ("timeout", "2024-05-01 10:00:00") |}
          ∈ listed_lines (errors true sample_db)) as Hin
    by (vm_compute; repeat constructor).
  split; [exact Hin|]. exact (errors_line_bounds true sample_db _ Hin).
Defined.

Lemma errors_shape (show_all : bool) (db : P3Database) :
  match errors show_all db with
  | NoErrorsFound => Db.get_error_episodes db = []
  | ErrorsTable total lines hint =>
      total = length lines ∧ hint = negb show_all
      ∧ line_id <$> lines = (Db.get_error_episodes db).*1
  end.
Proof.
  unfold errors. destruct (Db.get_error_episodes db) as [|r l]; [done|].
  split; [by rewrite length_fmap|]. split; [done|]. by rewrite <- list_fmap_compose.
Qed.

(** X9. [errors] shows one line for each episode with errors and nothing
    else: it reports that there are none exactly when no episode has a
    positive error count; otherwise the total in the title is the number of
    lines, no id is listed twice, the listed ids are those of the episodes
    with a positive error count, and the hint at [--show-all] is printed
    exactly when the option was not given. *)
Theorem errors_table_complete (show_all : bool) (db : P3Database) :
  (errors show_all db = NoErrorsFound ↔
   ∀ k e, episodes db !! k = Some e → error_count e ≤ 0)
  ∧ (∀ total lines hint,
       errors show_all db = ErrorsTable total lines hint →
       total = length lines
       ∧ hint = negb show_all
       ∧ NoDup (line_id <$> lines)
       ∧ ∀ k, k ∈ line_id <$> lines ↔
              ∃ e, episodes db !! k = Some e ∧ 0 < error_count e).
Proof.
  split.
  - split.
    + intros Hnone k e He.
      destruct (decide (0 < error_count e)) as [Hpos|]; [|lia].
      assert (k ∈ listed_ids (errors show_all db)) as Hin
        by (apply listed_ids_errors; eauto).
      rewrite Hnone in Hin. by apply elem_of_nil in Hin.
    + intros Hnone. unfold errors. by rewrite no_error_episodes.
  - intros total lines hint Htable.
    pose proof (listed_ids_errors show_all db) as Hids.
    pose proof (errors_shape show_all db) as Hshape.
    rewrite Htable in Hids, Hshape. cbn [listed_ids] in Hids.
    destruct Hshape as (Htotal & Hhint & Hlines).
    split; [done|]. split; [done|]. split; [|exact Hids].
    rewrite Hlines.
    apply (NoDup_fst_filter _ (map_to_list (episodes db))), NoDup_fst_map_to_list.
Qed.

(** ** More on [digest] *)

Section DigestCounts.

Variable llm : TranscriptCleaner → P3Database → Z → outcome.
Variable cleaner : TranscriptCleaner.
Variable skip_errors : bool.
Variable max_retries : Z.

(** Whatever the calls return, each row under the ceiling is counted once. *)
Lemma digest_loop_total (l : list row) (b : batch) :
  let b' := digest_loop llm cleaner skip_errors max_retries l b in
  (processed b' + failed b')%nat
  = (processed b + failed b
     + length (filter (λ r : row, (error_count r.2 < max_retries)%Z) l))%nat.
Proof.
  revert b. induction l as [|r l IH]; intros b.
  { simpl. lia. }
  cbv zeta in *. rewrite digest_loop_cons, IH, filter_cons.
  unfold digest_step. case_bool_decide as Hskip.
  - rewrite decide_False by lia. done.
  - rewrite decide_True by lia.
    destruct (generate_summary _ _ _ _ _) as [db' [|]]; simpl; lia.
Qed.

(** A batch whose rows are all at the ceiling: the loop only prints. *)
Lemma digest_loop_all_skipped (l : list row) (b : batch) :
  (∀ r, r ∈ l → max_retries ≤ error_count r.2) →
  digest_loop llm cleaner skip_errors max_retries l b
  = {| batch_db := batch_db b; processed := processed b; failed := failed b;
       trace := (trace b
                 ++ ((λ r : row, Print (DSkipping (PyStr.take 40 (title r.2)))) <$> l))%list |}.
Proof.
  revert b. induction l as [|r l IH]; intros b Hall.
  { simpl. rewrite app_nil_r. by destruct b. }
  rewrite digest_loop_cons, IH by (intros r' Hr'; apply Hall, elem_of_cons; by right).
  unfold digest_step.
  rewrite bool_decide_eq_true_2 by (apply Hall, elem_of_cons; by left).
  cbn [batch_db processed failed trace]. by rewrite fmap_cons, <- app_assoc.
Qed.

End DigestCounts.

Lemma no_calls_in_skips (l : list row) :
  filter (λ ev, is_print ev = false)
    ((λ r : row, Print (DSkipping (PyStr.take 40 (title r.2)))) <$> l) = [].
Proof.
  induction l as [|x xs IH]; [done|].
  rewrite fmap_cons, filter_cons. by rewrite decide_False.
Qed.

(** X10. In a batch run of [digest] every transcribed episode under the
    retry ceiling is counted exactly once, as processed or as failed,
    whatever the summarizer does: the two numbers printed add up to the
    number of transcribed episodes with [error_count < max_retries]. *)
Theorem digest_counts_add_up
    (llm : TranscriptCleaner → P3Database → Z → outcome)
    (settings : settings) (provider model : option string)
    (episode_id : option Z) (skip_errors : bool) (R : Z) (db : P3Database) :
  truthy_int episode_id = None →
  digest_batch db ≠ [] →
  ∃ p f : nat,
    (digest llm (Loaded settings) provider model episode_id skip_errors R db).2
    = (batch_header skip_errors
       ++ (batch_event skip_errors R <$> digest_batch db)
       ++ Print (DProcessed p)
          :: if Nat.ltb 0 f then [Print (DFailed f); Print DHintErrorsOrRetry] else [])%list
    ∧ (p + f)%nat = length (filter (λ r : row, error_count r.2 < R) (digest_batch db)).
Proof.
  intros Hid Hne. unfold digest. rewrite Hid. cbv zeta. fold (digest_batch db).
  destruct (digest_batch db) as [|r l] eqn:Hbatch; [done|]. rewrite <- Hbatch.
  set (b := digest_loop llm (cleaner_of settings provider model) skip_errors R
              (digest_batch db) (batch_start skip_errors db)).
  exists (processed b), (failed b). cbn [snd]. split.
  - unfold b. rewrite digest_loop_trace. cbn [batch_start trace].
    by rewrite <- app_assoc.
  - unfold b. by rewrite digest_loop_total.
Qed.

Lemma digest_counts_add_up_witness :
  ∃ p f : nat,
    (digest sample_llm (Loaded sample_settings) None None None false 5 sample_db).2
    = (batch_header false
       ++ (batch_event false 5 <$> digest_batch sample_db)
       ++ Print (DProcessed p)
          :: if Nat.ltb 0 f then [Print (DFailed f); Print DHintErrorsOrRetry] else [])%list
    ∧ (p + f)%nat = length (filter (λ r : row, error_count r.2 < 5) (digest_batch sample_db)).
Proof.
  apply (digest_counts_add_up sample_llm sample_settings None None None false 5 sample_db).
  - reflexivity.
  - discriminate.
Defined.

(** X11. With an episode id given, [digest] does not look at the retry
    ceiling: the run is the same for every value of [--max-retries], and
    the summarizer is called once, for that id. *)
Theorem digest_single_ignores_ceiling
    (llm : TranscriptCleaner → P3Database → Z → outcome)
    (settings : settings) (provider model : option string)
    (episode_id : option Z) (skip_errors : bool) (R R' : Z) (db : P3Database) (id : Z) :
  truthy_int episode_id = Some id →
  digest llm (Loaded settings) provider model episode_id skip_errors R db
  = digest llm (Loaded settings) provider model episode_id skip_errors R' db
  ∧ filter (λ ev, is_print ev = false)
      (digest llm (Loaded settings) provider model episode_id skip_errors R db).2
    = [Summarize id skip_errors].
Proof.
  intros Hid. unfold digest. rewrite Hid. cbv zeta. split; [done|].
  destruct (generate_summary _ _ _ _ _) as [db' [|]]; by cbn.
Qed.

Lemma digest_single_ignores_ceiling_witness :
  digest sample_llm (Loaded sample_settings) None None (Some 2) false 3 sample_db
  = digest sample_llm (Loaded sample_settings) None None (Some 2) false 0 sample_db
  ∧ filter (λ ev, is_print ev = false)
      (digest sample_llm (Loaded sample_settings) None None (Some 2) false 3 sample_db).2
    = [Summarize 2 false].
Proof.
  apply (digest_single_ignores_ceiling sample_llm sample_settings None None (Some 2)
           false 3 0 sample_db 2).
  reflexivity.
Defined.

(** X12. A ceiling of zero or less stops the batch: when no error count is
    negative, a batch run of [digest] with [max_retries <= 0] calls the
    summarizer for no episode and leaves the store as it is; with at least
    one transcribed episode it prints that 0 episodes were processed. *)
Theorem digest_ceiling_at_most_zero
    (llm : TranscriptCleaner → P3Database → Z → outcome)
    (settings : settings) (provider model : option string)
    (episode_id : option Z) (skip_errors : bool) (R : Z) (db : P3Database) :
  truthy_int episode_id = None →
  R ≤ 0 →
  (∀ k e, episodes db !! k = Some e → 0 ≤ error_count e) →
  let run := digest llm (Loaded settings) provider model episode_id skip_errors R db in
  run.1 = db
  ∧ filter (λ ev, is_print ev = false) run.2 = []
  ∧ (digest_batch db ≠ [] → last run.2 = Some (Print (DProcessed 0))).
Proof.
  intros Hid HR Hnonneg run. subst run. unfold digest. rewrite Hid. cbv zeta.
  fold (digest_batch db).
  assert (∀ r, r ∈ digest_batch db → R ≤ error_count r.2) as Hall.
  { intros [k e] [He _]%elem_of_episodes_by_status. specialize (Hnonneg k e He).
    simpl. lia. }
  assert (filter (λ ev, is_print ev = false) (batch_header skip_errors) = []) as Hheader
    by (by destruct skip_errors).
  destruct (digest_batch db) as [|r l] eqn:Hbatch.
  - cbn [fst snd]. rewrite filter_app, Hheader. done.
  - rewrite <- Hbatch in *. rewrite (digest_loop_all_skipped llm _ _ _ _ _ Hall).
    cbn [batch_db processed failed trace batch_start fst snd Nat.ltb Nat.leb].
    split; [done|]. split.
    + rewrite !filter_app, Hheader, no_calls_in_skips. done.
    + intros _. by rewrite last_snoc.
Qed.

Lemma sample_db_nonnegative (k : Z) (e : Episode) :
  episodes sample_db !! k = Some e → 0 ≤ error_count e.
Proof.
  assert (map_Forall (λ (_ : Z) e, 0 ≤ error_count e) (episodes sample_db)) as Hall
    by (apply (bool_decide_unpack _); by vm_compute).
  apply Hall.
Qed.

Lemma digest_ceiling_at_most_zero_witness :
  let run := digest sample_llm (Loaded sample_settings) None None None false 0 sample_db in
  run.1 = sample_db
  ∧ filter (λ ev, is_print ev = false) run.2 = []
  ∧ (digest_batch sample_db ≠ [] → last run.2 = Some (Print (DProcessed 0))).
Proof.
  apply (digest_ceiling_at_most_zero sample_llm sample_settings None None None false 0
           sample_db).
  - reflexivity.
  - lia.
  - apply sample_db_nonnegative.
Defined.

(** ** More on [export] and [write] *)

Lemma written_app (a b : list io_event) : written (a ++ b) = (written a ++ written b)%list.
Proof. apply omap_app. Qed.

Lemma queries_app (a b : list io_event) : queries (a ++ b) = (queries a ++ queries b)%list.
Proof. apply omap_app. Qed.

Section ExportFacts.

Variable strptime : string → option date.
Variable now : date.
Variable get_summaries_by_date : date → list string.
Variable export_markdown export_json : list string → date → string.

(** [export] with its configuration loaded, in terms of the body of its
    loop. *)
Lemma export_loaded (settings : settings) (date : option string)
    (format : list string) (output : option string) :
  export strptime now get_summaries_by_date export_markdown export_json
    (Loaded settings) date format output
  = match parse_date strptime now date with
    | None => [Tell IoInvalidDate]
    | Some d =>
        QuerySummaries d ::
        match get_summaries_by_date d with
        | [] => [Tell (IoNoSummaries d)]
        | _ =>
            Tell (IoExporting (length (get_summaries_by_date d)) d) ::
            for_each (export_step export_markdown export_json output
                        (get_summaries_by_date d) d)
              (export_formats settings format) []
        end
    end.
Proof. done. Qed.

Lemma export_loop (output : option string) (summaries : list string) (d : date)
    (formats : list string) (out : list io_event) :
  written (for_each (export_step export_markdown export_json output summaries d)
             formats out)
  = (written out
     ++ omap (export_one export_markdown export_json output summaries d) formats)%list
  ∧ queries (for_each (export_step export_markdown export_json output summaries d)
               formats out)
    = queries out.
Proof.
  revert out. induction formats as [|fmt formats IH]; intros out.
  { cbn. by rewrite app_nil_r. }
  change (for_each ?f (fmt :: formats) out) with (for_each f formats (f fmt out)).
  destruct (IH (export_step export_markdown export_json output summaries d fmt out))
    as [-> ->].
  unfold export_step, export_one, export_file. cbn [omap list_omap].
  repeat case_bool_decide; cbv zeta; rewrite written_app, queries_app; cbn;
    rewrite ?app_nil_r, <- ?app_assoc; done.
Qed.

(** X13. The files that [export] writes: with the date accepted and at
    least one summary for it, one file is written for each format among
    markdown and json, in the order of the formats, and a format other than
    these two only gets a message; with [--output] every one of these
    writes goes to that one path, so that a later format overwrites an
    earlier one. *)
Theorem export_files_written (settings : settings) (date : option string)
    (format : list string) (output : option string) (d : PyDate.date) :
  parse_date strptime now date = Some d →
  get_summaries_by_date d ≠ [] →
  let tr := export strptime now get_summaries_by_date export_markdown export_json
              (Loaded settings) date format output in
  written tr
  = omap (export_one export_markdown export_json output (get_summaries_by_date d) d)
      (export_formats settings format)
  ∧ (∀ o, truthy_str output = Some o → ∀ f c, (f, c) ∈ written tr → f = Named o).
Proof.
  intros Hdate Hsome tr.
  assert (written tr
          = omap (export_one export_markdown export_json output
                    (get_summaries_by_date d) d) (export_formats settings format))
    as Hwritten.
  { subst tr. rewrite export_loaded, Hdate.
    destruct (get_summaries_by_date d) as [|s rest] eqn:Hs; [done|].
    change (written (QuerySummaries d :: Tell ?m :: ?l)) with (written l).
    by destruct (export_loop output (s :: rest) d (export_formats settings format) [])
      as [-> _]. }
  split; [exact Hwritten|].
  intros o Ho f c. rewrite Hwritten, list_elem_of_omap.
  intros (fmt & _ & Hone). unfold export_one, export_file in Hone. rewrite Ho in Hone.
  repeat case_bool_decide; congruence.
Qed.

(** X14. The one query of [export] and [write]: when the date is accepted,
    each command queries the store exactly once, for that date; with no
    summary for the date, [export] writes no file and [write] calls no
    collaborator; with summaries, [write] has the blog post generated from
    the first summary only, then saved, then the social posts generated. *)
Theorem export_write_query (settings : settings) (topic : string)
    (date : option string) (format : list string) (output : option string)
    (d : PyDate.date) :
  parse_date strptime now date = Some d →
  let ex := export strptime now get_summaries_by_date export_markdown export_json
              (Loaded settings) date format output in
  let wr := write strptime now get_summaries_by_date (Loaded settings) topic date in
  queries ex = [d]
  ∧ queries wr = [d]
  ∧ (get_summaries_by_date d = [] →
     filter (λ ev, is_effect ev = true) ex = [QuerySummaries d]
     ∧ filter (λ ev, is_effect ev = true) wr = [QuerySummaries d])
  ∧ (∀ s rest, get_summaries_by_date d = s :: rest →
       filter (λ ev, is_effect ev = true) wr
       = [QuerySummaries d; GenerateBlogPost topic s; SaveBlogPost; GenerateSocialPosts]).
Proof.
  intros Hdate ex wr. subst ex wr. rewrite export_loaded. unfold write. rewrite Hdate.
  destruct (get_summaries_by_date d) as [|s rest] eqn:Hs.
  - repeat split; try done.
  - split; [|split; [done|split; [done|]]].
    + change (queries (QuerySummaries d :: Tell ?m :: ?l)) with (d :: queries l).
      by destruct (export_loop output (s :: rest) d (export_formats settings format) [])
        as [_ ->].
    + intros s' rest' [= <- <-]. done.
Qed.

End ExportFacts.

Lemma export_files_written_witness :
  let tr := export strptime_ymd sample_now sample_summaries sample_markdown sample_json
              (Loaded sample_settings) (Some "2024-05-31") ["json"; "pdf"; "markdown"]
              (Some "out.txt") in
  written tr
  = omap (export_one sample_markdown sample_json (Some "out.txt")
            (sample_summaries (mkDate 2024 5 31)) (mkDate 2024 5 31))
      (export_formats sample_settings ["json"; "pdf"; "markdown"])
  ∧ (∀ o, truthy_str (Some "out.txt") = Some o →
          ∀ f c, (f, c) ∈ written tr → f = Named o).
Proof.
  apply (export_files_written strptime_ymd sample_now sample_summaries sample_markdown sample_json
           sample_settings (Some "2024-05-31") ["json"; "pdf"; "markdown"]
           (Some "out.txt") (mkDate 2024 5 31)).
  - reflexivity.
  - discriminate.
Defined.

(** Two formats and an unsupported one into one file: the markdown written
    last is what the file holds. *)
Lemma export_overwrite_example :
  written (export strptime_ymd sample_now sample_summaries sample_markdown sample_json
             (Loaded sample_settings) (Some "2024-05-31") ["json"; "pdf"; "markdown"]
             (Some "out.txt"))
  = [(Named "out.txt", "{}"); (Named "out.txt", "# Digest")].
Proof. by vm_compute. Qed.

Lemma export_write_query_witness :
  let ex := export strptime_ymd sample_now sample_summaries sample_markdown sample_json
              (Loaded sample_settings) None [] None in
  let wr := write strptime_ymd sample_now sample_summaries (Loaded sample_settings) "retries" None in
  queries ex = [sample_now]
  ∧ queries wr = [sample_now]
  ∧ (sample_summaries sample_now = [] →
     filter (λ ev, is_effect ev = true) ex = [QuerySummaries sample_now]
     ∧ filter (λ ev, is_effect ev = true) wr = [QuerySummaries sample_now])
  ∧ (∀ s rest, sample_summaries sample_now = s :: rest →
       filter (λ ev, is_effect ev = true) wr
       = [QuerySummaries sample_now; GenerateBlogPost "retries" s; SaveBlogPost;
          GenerateSocialPosts]).
Proof.
  apply (export_write_query strptime_ymd sample_now sample_summaries sample_markdown sample_json
           sample_settings "retries" None [] None sample_now).
  reflexivity.
Defined.

(** ** The date format *)

Module PyDateFacts.

Lemma digit_char_digit (k : Z) :
  0 ≤ k ≤ 9 → is_digit (digit_char k) = true ∧ digit (digit_char k) = k.
Proof.
  intros Hk.
  assert (k = 0 ∨ k = 1 ∨ k = 2 ∨ k = 3 ∨ k = 4 ∨ k = 5 ∨ k = 6 ∨ k = 7 ∨ k = 8 ∨ k = 9)
    as Hcases by lia.
  repeat (destruct Hcases as [->|Hcases]; [by vm_compute|]). subst. by vm_compute.
Qed.

Lemma parse_year_four_digits (y : Z) (rest : string) :
  0 ≤ y ≤ 9999 → parse_year (four_digits y +:+ rest) = Some (y, rest).
Proof.
  intros Hy. unfold four_digits, parse_year.
  rewrite !PyStrFacts.append_String, PyStrFacts.append_empty.
  destruct (digit_char_digit (y / 1000)) as [-> ->];
    [split; [apply Z.div_pos; lia|apply Z.lt_succ_r, Z.div_lt_upper_bound; lia]|].
  destruct (digit_char_digit (y / 100 mod 10)) as [-> ->];
    [pose proof (Z.mod_pos_bound (y / 100) 10); lia|].
  destruct (digit_char_digit (y / 10 mod 10)) as [-> ->];
    [pose proof (Z.mod_pos_bound (y / 10) 10); lia|].
  destruct (digit_char_digit (y mod 10)) as [-> ->];
    [pose proof (Z.mod_pos_bound y 10); lia|].
  cbn [andb]. do 2 f_equal.
  assert (y / 100 = y / 10 / 10) as H100 by (rewrite Z.div_div by lia; reflexivity).
  assert (y / 1000 = y / 100 / 10) as H1000
    by (rewrite H100, !Z.div_div by lia; reflexivity).
  pose proof (Z.div_mod y 10 ltac:(lia)).
  pose proof (Z.div_mod (y / 10) 10 ltac:(lia)).
  pose proof (Z.div_mod (y / 100) 10 ltac:(lia)).
  rewrite H1000. rewrite H100 in *. lia.
Qed.

Lemma parse_month_two_digits (m : Z) (rest : string) :
  1 ≤ m ≤ 12 →
  parse_month (two_digits m +:+ String "-" rest) = Some (m, String "-" rest).
Proof.
  intros Hm.
  assert (m = 1 ∨ m = 2 ∨ m = 3 ∨ m = 4 ∨ m = 5 ∨ m = 6 ∨ m = 7 ∨ m = 8 ∨ m = 9
          ∨ m = 10 ∨ m = 11 ∨ m = 12) as Hcases by lia.
  repeat (destruct Hcases as [->|Hcases]; [done|]). by subst.
Qed.

Lemma parse_day_two_digits (d : Z) :
  1 ≤ d ≤ 31 → parse_day (two_digits d) = Some (d, "").
Proof.
  intros Hd.
  assert (1 ≤ d ≤ 10 ∨ 11 ≤ d ≤ 20 ∨ 21 ≤ d ≤ 31) as [H|[H|H]] by lia.
  - assert (d = 1 ∨ d = 2 ∨ d = 3 ∨ d = 4 ∨ d = 5 ∨ d = 6 ∨ d = 7 ∨ d = 8 ∨ d = 9
            ∨ d = 10) as Hcases by lia.
    repeat (destruct Hcases as [->|Hcases]; [done|]). by subst.
  - assert (d = 11 ∨ d = 12 ∨ d = 13 ∨ d = 14 ∨ d = 15 ∨ d = 16 ∨ d = 17 ∨ d = 18
            ∨ d = 19 ∨ d = 20) as Hcases by lia.
    repeat (destruct Hcases as [->|Hcases]; [done|]). by subst.
  - assert (d = 21 ∨ d = 22 ∨ d = 23 ∨ d = 24 ∨ d = 25 ∨ d = 26 ∨ d = 27 ∨ d = 28
            ∨ d = 29 ∨ d = 30 ∨ d = 31) as Hcases by lia.
    repeat (destruct Hcases as [->|Hcases]; [done|]). by subst.
Qed.

Lemma days_in_month_le (y m : Z) : days_in_month y m ≤ 31.
Proof.
  unfold days_in_month. repeat (destruct (_ =? _) || destruct (is_leap _)
                                || destruct (_ || _)); lia.
Qed.

Lemma valid_date_bounds (y m d : Z) :
  valid_date y m d = true → 1 ≤ y ≤ 9999 ∧ 1 ≤ m ≤ 12 ∧ 1 ≤ d ≤ 31.
Proof.
  unfold valid_date. rewrite !andb_true_iff, !Z.leb_le.
  pose proof (days_in_month_le y m). lia.
Qed.

(** The parse, step by step. *)
Lemma strptime_steps (s s1 s2 s3 s4 : string) (y m d : Z) :
  parse_year s = Some (y, s1) →
  parse_dash s1 = Some s2 →
  parse_month s2 = Some (m, s3) →
  parse_dash s3 = Some s4 →
  parse_day s4 = Some (d, "") →
  strptime_ymd s = if valid_date y m d then Some (mkDate y m d) else None.
Proof.
  intros H1 H2 H3 H4 H5. unfold strptime_ymd.
  rewrite H1; cbn. rewrite H2; cbn. rewrite H3; cbn. rewrite H4; cbn.
  by rewrite H5.
Qed.

Lemma parse_dash_dash (s : string) : parse_dash ("-" +:+ s) = Some s.
Proof. reflexivity. Qed.

Lemma strptime_strftime (d : date) :
  valid_date (year d) (month d) (day d) = true →
  strptime_ymd (strftime_ymd d) = Some d.
Proof.
  intros Hvalid. destruct d as [y m dd]. cbn [year month day] in *.
  pose proof (valid_date_bounds y m dd Hvalid) as (Hy & Hm & Hd).
  assert (0 ≤ y ≤ 9999) as Hy' by lia.
  assert (1 ≤ m ≤ 12) as Hm' by lia.
  assert (1 ≤ dd ≤ 31) as Hd' by lia.
  pose proof (parse_year_four_digits y
                ("-" +:+ two_digits m +:+ "-" +:+ two_digits dd) Hy') as H1.
  pose proof (parse_month_two_digits m (two_digits dd) Hm') as H3.
  pose proof (parse_day_two_digits dd Hd') as H5.
  pose proof (strptime_steps _ _ _ _ _ _ _ _ H1 (parse_dash_dash _) H3
                (parse_dash_dash _) H5) as Hsteps.
  rewrite Hvalid in Hsteps. exact Hsteps.
Qed.

End PyDateFacts.

(** X16. Round trip of the date format: a day of the calendar with a year of
    four digits, written as [strftime('%Y-%m-%d')] writes it (as in the
    name of a digest file), is of the form YYYY-MM-DD and is parsed back to
    the same date, so that [--date] accepts it. *)
Theorem strftime_strptime_round_trip (now d : date) :
  valid_date (year d) (month d) (day d) = true →
  1000 ≤ year d →
  strptime_ymd (strftime_ymd d) = Some d
  ∧ yyyy_mm_dd_form (strftime_ymd d) = true
  ∧ parse_date strptime_ymd now (Some (strftime_ymd d)) = Some d.
Proof.
  intros Hvalid Hyear. destruct d as [y m dd]. cbn [year month day] in *.
  pose proof (PyDateFacts.valid_date_bounds y m dd Hvalid) as (Hy & Hm & Hd).
  assert (strptime_ymd (strftime_ymd (mkDate y m dd)) = Some (mkDate y m dd)) as Hparse
    by (by apply PyDateFacts.strptime_strftime).
  assert (∀ k, 0 ≤ k ≤ 9 → is_digit (digit_char k) = true) as Hdig
    by (intros k Hk; by apply PyDateFacts.digit_char_digit).
  assert (0 ≤ y / 1000 ≤ 9) as Hy1
    by (split; [apply Z.div_pos; lia|apply Z.lt_succ_r, Z.div_lt_upper_bound; lia]).
  assert (0 ≤ m / 10 ≤ 9) as Hm1
    by (split; [apply Z.div_pos; lia|apply Z.lt_succ_r, Z.div_lt_upper_bound; lia]).
  assert (0 ≤ dd / 10 ≤ 9) as Hd1
    by (split; [apply Z.div_pos; lia|apply Z.lt_succ_r, Z.div_lt_upper_bound; lia]).
  assert (∀ k, 0 ≤ k mod 10 ≤ 9) as Hmod
    by (intros k; pose proof (Z.mod_pos_bound k 10); lia).
  split; [exact Hparse|]. split.
  - unfold strftime_ymd, four_digits, two_digits.
    cbn [year month day].
    rewrite !PyStrFacts.append_String, !PyStrFacts.append_empty.
    unfold yyyy_mm_dd_form.
    by rewrite !Hdig by (done || apply Hmod).
  - unfold parse_date. rewrite <- Hparse.
    unfold strftime_ymd, four_digits.
    rewrite !PyStrFacts.append_String. reflexivity.
Qed.

Lemma strftime_strptime_round_trip_witness :
  strptime_ymd (strftime_ymd (mkDate 2024 2 29)) = Some (mkDate 2024 2 29)
  ∧ yyyy_mm_dd_form (strftime_ymd (mkDate 2024 2 29)) = true
  ∧ parse_date strptime_ymd sample_now (Some (strftime_ymd (mkDate 2024 2 29)))
    = Some (mkDate 2024 2 29).
Proof.
  apply (strftime_strptime_round_trip sample_now (mkDate 2024 2 29)).
  - reflexivity.
  - cbn. lia.
Defined.

(** ** The command [status] *)

Lemma length_filter_or {A : Type} (P Q : A → Prop)
    `{∀ x, Decision (P x)} `{∀ x, Decision (Q x)} (l : list A) :
  (∀ x, P x → Q x → False) →
  length (filter (λ x, P x ∨ Q x) l)
  = (length (filter P l) + length (filter Q l))%nat.
Proof.
  intros Hdisj. induction l as [|x l IH]; [done|].
  rewrite !filter_cons.
  destruct (decide (P x)) as [HP|HP], (decide (Q x)) as [HQ|HQ].
  - destruct (Hdisj x HP HQ).
  - rewrite decide_True by (by left). cbn [length]. by rewrite IH.
  - rewrite decide_True by (by right). cbn [length]. rewrite IH. lia.
  - rewrite decide_False by tauto. done.
Qed.

Lemma length_filter_all {A : Type} (P : A → Prop) `{∀ x, Decision (P x)} (l : list A) :
  length (filter P l) = length l ↔ Forall P l.
Proof.
  induction l as [|x l IH]; [by split|].
  rewrite filter_cons, Forall_cons. pose proof (length_filter P l) as Hle.
  destruct (decide (P x)) as [HP|HP]; cbn [length].
  - rewrite <- IH. split; [intros [=]; by split|intros [_ ->]; done].
  - split; [lia|tauto].
Qed.

(** The rows counted under the keys [ks], key by key, are the rows with a
    key among [ks]. *)
Lemma count_by_key {A : Type} (f : A → string) (ks : list string) (l : list A) :
  NoDup ks →
  sum_list ((λ k, length (filter (λ x, f x = k) l)) <$> ks)
  = length (filter (λ x, f x ∈ ks) l).
Proof.
  induction 1 as [|k ks Hk Hks IH].
  - induction l as [|x l IHl]; [done|].
    rewrite filter_cons, decide_False; [done|]. by intros ?%elem_of_nil.
  - rewrite fmap_cons.
    change (sum_list (?a :: ?r)) with (a + sum_list r)%nat. rewrite IH.
    rewrite <- (length_filter_or (λ x, f x = k) (λ x, f x ∈ ks))
      by (intros x -> Hin; done).
    f_equal. apply list_filter_iff. intros x. rewrite elem_of_cons. tauto.
Qed.

Lemma statuses_NoDup : NoDup statuses.
Proof. apply (bool_decide_unpack (NoDup statuses)). by vm_compute. Qed.

Lemma status_command_shape (db : P3Database) :
  status_command db
  = StatusTable
      [ mkStatusRow "Downloaded" (length (Db.get_episodes_by_status "downloaded" db)) Green;
        mkStatusRow "Transcribed" (length (Db.get_episodes_by_status "transcribed" db)) Green;
        mkStatusRow "Processed" (length (Db.get_episodes_by_status "processed" db)) Green;
        mkStatusRow "Failed" (length (Db.get_episodes_by_status "failed" db)) Red ]
    :: (if Nat.ltb 0 (length (Db.get_error_episodes db))
        then [StatusErrorsWarning (length (Db.get_error_episodes db)); StatusHintErrors]
        else []).
Proof. reflexivity. Qed.

Lemma status_counts_sum (db : P3Database) :
  sum_list (status_counts (status_command db))
  = length (filter (λ r : row, valid_status (status r.2) = true)
              (map_to_list (episodes db))).
Proof.
  rewrite (list_filter_iff (λ r : row, valid_status (status r.2) = true)
             (λ r : row, status r.2 ∈ statuses))
    by (intros r; unfold valid_status; by rewrite bool_decide_eq_true).
  rewrite <- (count_by_key (λ r : row, status r.2) statuses) by apply statuses_NoDup.
  reflexivity.
Qed.

Lemma store_ok_Forall (db : P3Database) :
  store_ok db ↔
  Forall (λ r : row, valid_status (status r.2) = true) (map_to_list (episodes db)).
Proof.
  rewrite Forall_forall. unfold store_ok. split.
  - intros Hok [k e] Hin%elem_of_map_to_list. by apply (Hok k).
  - intros Hall k e He. by apply (Hall (k, e)), elem_of_map_to_list.
Qed.

Lemma retry_all_reset_no_errors (episode_id : option Z) (db : P3Database) :
  truthy_int episode_id = None →
  Db.get_error_episodes (retry episode_id true true db).1 = [].
Proof.
  intros Hid. apply no_error_episodes. intros k e'.
  rewrite (retry_all_lookup episode_id true db k Hid).
  destruct (episodes db !! k) as [e|]; simpl; [|done].
  intros [= <-]. unfold errored. case_bool_decide; simpl; lia.
Qed.

(** X17. The table that [status] prints has the four rows Downloaded,
    Transcribed, Processed and Failed, the last one in red; an episode is
    counted in at most one row, so that the counts add up to at most the
    number of episodes in the store, and to exactly that number if and only
    if every episode has one of the four statuses. *)
Theorem status_counts_cover_store (db : P3Database) :
  (∃ table rest,
     status_command db = StatusTable table :: rest
     ∧ row_status <$> table = ["Downloaded"; "Transcribed"; "Processed"; "Failed"]
     ∧ row_style <$> table = [Green; Green; Green; Red]
     ∧ row_count <$> table = status_counts (status_command db))
  ∧ (sum_list (status_counts (status_command db)) ≤ size (episodes db))%nat
  ∧ (sum_list (status_counts (status_command db)) = size (episodes db) ↔ store_ok db).
Proof.
  split; [|split].
  - rewrite status_command_shape. by eexists _, _.
  - rewrite status_counts_sum, <- length_map_to_list. apply length_filter.
  - rewrite status_counts_sum, <- length_map_to_list, store_ok_Forall.
    apply length_filter_all.
Qed.

(** X18. [status] and [errors] agree: [status] prints its warning exactly
    when [errors] has a table to show, with the total of that table as the
    number of episodes with errors; and after [retry --all --reset-errors]
    [status] prints its table only. *)
Theorem status_warning_matches_errors (show_all : bool) (db : P3Database) :
  match errors show_all db with
  | NoErrorsFound => status_after_table (status_command db) = []
  | ErrorsTable total _ _ =>
      status_after_table (status_command db)
      = [StatusErrorsWarning total; StatusHintErrors]
      ∧ (0 < total)%nat
  end
  ∧ status_after_table (status_command (retry None true true db).1) = [].
Proof.
  split.
  - rewrite status_command_shape. cbn [status_after_table].
    unfold errors. destruct (Db.get_error_episodes db) as [|r l]; [done|].
    cbn [length Nat.ltb Nat.leb]. split; [done|lia].
  - rewrite status_command_shape. cbn [status_after_table].
    by rewrite retry_all_reset_no_errors.
Qed.
(** ** The migration: what it returns, what it leaves alone, what it adds *)

Module MigrateFrame.
Import Migrate MigrateFacts.

Lemma plain_old_table : plain_error_columns old_table.
Proof.
  intros c Hc. unfold error_columns in Hc. rewrite !elem_of_cons, elem_of_nil in Hc.
  by destruct Hc as [->|[->|[->|[]]]].
Qed.

Lemma added_names (found : list string) (t : table) (sp : string * sqltype * value) :
  sp ∈ (adds found column_specs t).1.2 → sp.2 = column_default sp.1.1.
Proof.
  intros Hsp. destruct (adds_shape found column_specs t) as (_ & _ & _ & Hadded).
  destruct (Hadded sp Hsp) as (Hspec & _). unfold column_specs in Hspec.
  rewrite !elem_of_cons, elem_of_nil in Hspec. by destruct Hspec as [->|[->|[->|[]]]].
Qed.

(** The cell of a column added, in a row after the additions. *)
Lemma row_after_added (added : list (string * sqltype * value)) (r : gmap string value)
    (sp : string * sqltype * value) :
  apart added → sp ∈ added → row_after added r !! sp.1.1 = Some sp.2.
Proof.
  revert r. induction added as [|a added IH]; intros r Hap Hsp.
  { by apply elem_of_nil in Hsp. }
  apply apart_cons in Hap as [Hap Hdist]. rewrite row_after_cons.
  apply elem_of_cons in Hsp as [->|Hsp]; [|by apply IH].
  rewrite row_after_other; [apply lookup_insert_eq|].
  intros sp' Hsp' Heq. specialize (Hdist sp' Hsp').
  rewrite Heq, same_identifier_refl in Hdist. done.
Qed.

Lemma apart_filter (P : string * sqltype * value → Prop) `{∀ x, Decision (P x)}
    (specs : list (string * sqltype * value)) :
  apart specs → apart (filter P specs).
Proof.
  induction specs as [|a specs IH]; intros Hap; [done|].
  apply apart_cons in Hap as [Hap Hdist]. rewrite filter_cons.
  destruct (decide (P a)); [|by apply IH].
  intros [|i] [|j] s s' Hi Hj Hij; simplify_eq/=.
  - apply Hdist. apply list_elem_of_lookup_2 in Hj. by apply list_elem_of_filter in Hj as [_ ?].
  - apply list_elem_of_lookup_2 in Hi. apply list_elem_of_filter in Hi as [_ Hi].
    specialize (Hdist s Hi). unfold same_identifier in *.
    by rewrite String.eqb_sym.
  - apply (IH Hap i j); [done|done|lia].
Qed.

(** X19. The value of [migrate_database] and what it prints: it returns
    [True] only if the database has a table of episodes with a status
    column; what it prints starts with the announcement and ends with the
    message of success when it returns [True], with the error when it
    returns [False], and never has both; with no table of episodes it
    returns [False] and leaves the database as it was. *)
Theorem migrate_result (conversion_error : table → bool) (db : database) :
  let r := migrate_database conversion_error db in
  (r.2 = true → ∃ t, db !! "episodes" = Some t ∧ has_column "status" t = true)
  ∧ head r.1.2 = Some Migrating
  ∧ last r.1.2 = Some (if r.2 then Completed else MigrationError)
  ∧ (Completed ∈ r.1.2 ↔ r.2 = true)
  ∧ (MigrationError ∈ r.1.2 ↔ r.2 = false)
  ∧ (db !! "episodes" = None → r.1.1 = db ∧ r.2 = false).
Proof.
  cbv zeta. destruct (db !! "episodes") as [t|] eqn:Ht.
  - rewrite (migrate_with_table conversion_error db t Ht). cbn [fst snd].
    destruct (migrate_table_out conversion_error t) as (added & Hout).
    assert (∀ m e, (∀ c, m ≠ Added c) → m ≠ Migrating →
              m ∈ (([Migrating] ++ (Added <$> added)) ++ [e])%list ↔ m = e) as Hin.
    { intros m e Hm Hm'. rewrite !elem_of_app, !list_elem_of_singleton. split.
      - intros [[?|(c & -> & _)%list_elem_of_fmap]|?]; [done| |done]. by destruct (Hm c).
      - auto. }
    rewrite Hout. split_and!.
    + intros Hok. exists t. split; [done|].
      destruct (migrate_table_true conversion_error t Hok) as (c & Hc).
      apply find_column_spelling in Hc as [Hsame Hin'].
      unfold has_column. apply existsb_exists. exists c.
      split; [by apply list_elem_of_In|done].
    + done.
    + apply last_snoc.
    + rewrite Hin by done. by destruct (migrate_table conversion_error t).2.
    + rewrite Hin by done. by destruct (migrate_table conversion_error t).2.
    + done.
  - rewrite (migrate_no_table conversion_error db Ht). cbn [fst snd]. split_and!.
    + done.
    + done.
    + done.
    + split; [|done]. rewrite !elem_of_cons, elem_of_nil. by intros [|[|]].
    + split; [done|]. intros _. rewrite !elem_of_cons. auto.
    + done.
Qed.

(** X20. What the migration leaves alone: with a table of episodes in the
    database, every other table is as before, the table has as many rows
    as before, and in every row every cell of a column that was there,
    other than the status column under any spelling, is as before; this
    holds for a run that fails as well. *)
Theorem migrate_frame (conversion_error : table → bool) (db : database) (t : table) :
  db !! "episodes" = Some t →
  let db' := (migrate_database conversion_error db).1.1 in
  (∀ n, n ≠ "episodes" → db' !! n = db !! n)
  ∧ length (episode_rows db') = length (rows t)
  ∧ (∀ i r r' c,
       rows t !! i = Some r → episode_rows db' !! i = Some r' →
       same_identifier c "status" = false →
       c ∈ column_name <$> columns t ∨ c ∉ error_columns →
       r' !! c = r !! c).
Proof.
  intros Ht db'. unfold db'. rewrite (migrate_with_table conversion_error db t Ht).
  cbn [fst]. unfold episode_rows. rewrite lookup_insert_eq. split; [|split].
  - intros n Hn. by apply lookup_insert_ne.
  - by destruct (migrate_table_shape conversion_error t) as (_ & _ & ? & _).
  - intros i r r' c Hr Hr' Hc Hold. rewrite migrate_table_rows in Hr'.
    rewrite list_lookup_fmap, Hr in Hr'. cbn in Hr'. injection Hr' as <-.
    assert (row_after (adds (found_in t) column_specs t).1.2 r !! c = r !! c) as Hafter.
    { apply row_after_other. intros sp Hsp <-.
      destruct (adds_shape (found_in t) column_specs t) as (_ & _ & _ & Hadded).
      destruct (Hadded sp Hsp) as (Hspec & _ & Hhas).
      destruct Hold as [Hin|Hout].
      - apply has_column_exact in Hin. congruence.
      - apply Hout. rewrite <- column_specs_names.
        by apply list_elem_of_fmap_2, list_elem_of_fmap_2. }
    destruct (migrate_table conversion_error t).2; [|done].
    destruct (find_column "status" t) as [col|] eqn:Hcol; [|done].
    destruct (column_type col); try done.
    rewrite normalize_row_other; [done|].
    apply find_column_spelling in Hcol as [Hsame _]. intros ->. congruence.
Qed.

Lemma migrate_frame_witness :
  let db' := (migrate_database raise_on_rows old_database_with_feeds).1.1 in
  (∀ n, n ≠ "episodes" → db' !! n = old_database_with_feeds !! n)
  ∧ length (episode_rows db') = length (rows old_table)
  ∧ (∀ i r r' c,
       rows old_table !! i = Some r → episode_rows db' !! i = Some r' →
       same_identifier c "status" = false →
       c ∈ column_name <$> columns old_table ∨ c ∉ error_columns →
       r' !! c = r !! c).
Proof.
  apply (migrate_frame raise_on_rows old_database_with_feeds old_table). reflexivity.
Defined.

(** X21. What the migration adds: on a table spelled [episodes] that holds
    no error column under another spelling, each of the three error
    columns that the table lacks is added to it and announced, and every
    row holds the default in it, 0 for [error_count] and NULL for
    [last_error] and [error_timestamp]; the columns stay added when the run
    then fails at the status update. *)
Theorem migrate_new_columns (conversion_error : table → bool) (db : database)
    (t : table) (c : string) :
  db !! "episodes" = Some t →
  table_name t = "episodes" →
  plain_error_columns t →
  c ∈ error_columns →
  c ∉ column_name <$> columns t →
  let r := migrate_database conversion_error db in
  c ∈ column_name <$> episode_columns r.1.1
  ∧ Added c ∈ r.1.2
  ∧ (∀ row, row ∈ episode_rows r.1.1 → row !! c = Some (column_default c)).
Proof.
  intros Ht Hn Hplain Hc Hnew r. unfold r.
  rewrite (migrate_with_table conversion_error db t Ht). cbn [fst snd].
  unfold episode_columns, episode_rows. rewrite lookup_insert_eq.
  destruct (adds_plain (found_in t) column_specs column_specs_apart t) as [Hadded _];
    [intros sp Hsp; by apply found_in_plain|].
  assert (∃ sp, sp ∈ (adds (found_in t) column_specs t).1.2 ∧ sp.1.1 = c) as (sp & Hsp & <-).
  { rewrite <- column_specs_names in Hc.
    apply list_elem_of_fmap in Hc as (n & -> & Hn').
    apply list_elem_of_fmap in Hn' as (sp & -> & Hsp).
    exists sp. split; [|done]. rewrite Hadded. apply list_elem_of_filter.
    split; [|done]. intros (_ & _ & Hin)%elem_of_found_in. done. }
  split; [|split].
  - destruct (migrate_table_shape conversion_error t) as (_ & -> & _).
    destruct (adds_shape (found_in t) column_specs t) as (_ & -> & _).
    rewrite fmap_app. apply elem_of_app. right. rewrite <- list_fmap_compose.
    by apply (list_elem_of_fmap_2' _ _ sp).
  - apply elem_of_added_out. by apply list_elem_of_fmap_2, list_elem_of_fmap_2.
  - intros row. rewrite migrate_table_rows.
    intros (r0 & -> & _)%list_elem_of_fmap.
    assert (row_after (adds (found_in t) column_specs t).1.2 r0 !! sp.1.1
            = Some (column_default sp.1.1)) as Hafter.
    { rewrite <- (added_names (found_in t) t sp Hsp).
      apply row_after_added; [|done]. rewrite Hadded.
      apply apart_filter, column_specs_apart. }
    destruct (migrate_table conversion_error t).2; [|done].
    destruct (find_column "status" t) as [col|] eqn:Hcol; [|done].
    destruct (column_type col); try done.
    rewrite normalize_row_other; [done|].
    apply find_column_spelling in Hcol as [Hsame _]. intros Heq.
    destruct (adds_shape (found_in t) column_specs t) as (_ & _ & _ & Hspecs).
    destruct (Hspecs sp Hsp) as (Hspec & _).
    apply column_specs_not_status in Hspec. congruence.
Qed.

Lemma migrate_new_columns_witness :
  let r := migrate_database raise_on_rows old_database in
  "error_count" ∈ column_name <$> episode_columns r.1.1
  ∧ Added "error_count" ∈ r.1.2
  ∧ (∀ row, row ∈ episode_rows r.1.1 →
            row !! "error_count" = Some (column_default "error_count")).
Proof.
  apply (migrate_new_columns raise_on_rows old_database old_table "error_count").
  - reflexivity.
  - reflexivity.
  - apply plain_old_table.
  - apply (bool_decide_unpack ("error_count" ∈ error_columns)). reflexivity.
  - apply (bool_decide_unpack ("error_count" ∉ column_name <$> columns old_table)).
    reflexivity.
Defined.

End MigrateFrame.
